(** * certigen: the certificate batch generator of [app.py]

    A shallow embedding of the name pipeline, the Gujarati font
    verification, the text layout, the PDF assembly and the batch handler
    [process] of [src/app.py], with the properties its specification states.

    Conventions of the model.
    - A Python [str] is a sequence of Unicode code points.  The model keeps
      it as the Rocq [string] of its UTF-8 bytes, which is how the text is
      posted, written to files and named on disk; a string literal of this
      file is the literal of [app.py], byte for byte.  What Python does
      character by character ([strip], [split], [lower], [capitalize],
      [isalnum], [len], slices, the order of [sort]) is done on the code
      points, with [decode] and [encode] between the two forms.  What the
      program does with ASCII arguments only ([+], [startswith],
      [endswith], [in], [replace], cutting at a slash) is done on the bytes:
      no byte of a multi-byte character is an ASCII byte, so the result is
      the same.
    - White space is the set of 29 characters [str.isspace] accepts.  Case
      and [isalnum] are written out on the ASCII range; outside it they are
      the answers of the Unicode character database of the Python build,
      [Ucd], which is part of the environment.
    - Python [int] is [Z]; floor division [//] is [Z.div].  Python [float]
      results (true division [/], the width factors 0.5 and 0.6) are exact
      rationals [Q]; binary rounding is not modelled.
    - The file system is a finite map from paths to contents; an operation
      that can raise returns a [Result] next to the file system it leaves
      behind, so an exception never rolls back what was already written. *)

From Stdlib Require Import Ascii String ZArith NArith QArith Qabs Lia Lqa.
From stdpp Require Import base tactics option list sorting strings pretty gmap.

Local Open Scope string_scope.
Local Open Scope Z_scope.
Local Open Scope list_scope.

(** ** UTF-8 *)

Module Utf8.

Definition code (b : ascii) : N := N_of_ascii b.

Definition byte (n : N) : ascii := ascii_of_N n.

(** The continuation byte that carries the low six bits of [n]. *)
Definition cont (n : N) : ascii := byte (128 + n mod 64).

(** The bytes of one code point: one byte below U+0080, two below U+0800,
    three below U+10000, four from there on. *)
Definition encode_char (c : N) : list ascii :=
  if (c <? 0x80)%N then [byte c]
  else if (c <? 0x800)%N then [byte (0xC0 + c / 64); cont c]
  else if (c <? 0x10000)%N then [byte (0xE0 + c / 4096); cont (c / 64); cont c]
  else [byte (0xF0 + (c / 262144) mod 8); cont (c / 4096); cont (c / 64); cont c].

Definition encode_chars (l : list N) : list ascii := l ≫= encode_char.

Definition is_cont (b : ascii) : bool := ((128 <=? code b) && (code b <? 192))%N.

Definition bits (b : ascii) : N := (code b mod 64)%N.

(** U+FFFD, which a decoder puts in the place of a byte that is not part of
    a well-formed sequence. *)
Definition replacement : N := 0xFFFD%N.

(** The code points of a byte sequence.  A leading byte is read with as
    many continuation bytes as it announces; a byte that cannot be read
    this way gives [replacement] and reading goes on after it.  Such a byte
    sequence is the encoding of no [str]. *)
Fixpoint decode_bytes (l : list ascii) : list N :=
  match l with
  | [] => []
  | b0 :: l1 =>
      let n0 := code b0 in
      if (n0 <? 0x80)%N then n0 :: decode_bytes l1
      else
        match l1 with
        | b1 :: l2 =>
            if ((0xC0 <=? n0) && (n0 <? 0xE0))%N && is_cont b1
            then ((n0 - 0xC0) * 64 + bits b1)%N :: decode_bytes l2
            else
              match l2 with
              | b2 :: l3 =>
                  if ((0xE0 <=? n0) && (n0 <? 0xF0))%N && is_cont b1 && is_cont b2
                  then (((n0 - 0xE0) * 64 + bits b1) * 64 + bits b2)%N :: decode_bytes l3
                  else
                    match l3 with
                    | b3 :: l4 =>
                        if ((0xF0 <=? n0) && (n0 <? 0xF8))%N
                           && is_cont b1 && is_cont b2 && is_cont b3
                        then ((((n0 - 0xF0) * 64 + bits b1) * 64 + bits b2) * 64 + bits b3)%N
                             :: decode_bytes l4
                        else replacement :: decode_bytes l1
                    | [] => replacement :: decode_bytes l1
                    end
              | [] => replacement :: decode_bytes l1
              end
        | [] => [replacement]
        end
  end.

End Utf8.

(** The bytes of a string, and the string of some bytes. *)
Definition bytes := list ascii.

Definition of_string : string -> bytes := list_ascii_of_string.

Definition to_string : bytes -> string := string_of_list_ascii.

(** ** Python's [str] built-ins, on code points *)

Module PyStr.

Definition chars := list N.

(** The code points of a [str], and the [str] of some code points. *)
Definition decode (s : string) : chars := Utf8.decode_bytes (of_string s).

Definition encode (l : chars) : string := to_string (Utf8.encode_chars l).

(** [str.isspace] of one character, which is also what [strip()] and
    [split()] take for white space: TAB, LF, VT, FF, CR, the separators FS,
    GS, RS, US, the space, NEL (U+0085), the no-break space (U+00A0), the
    Ogham space mark (U+1680), the spaces U+2000 to U+200A, the line and
    paragraph separators (U+2028, U+2029), the narrow no-break space
    (U+202F), the medium mathematical space (U+205F) and the ideographic
    space (U+3000). *)
Definition isspace (c : N) : bool :=
  ((9 <=? c) && (c <=? 13) || (28 <=? c) && (c <=? 32)
   || (c =? 0x85) || (c =? 0xA0) || (c =? 0x1680)
   || (0x2000 <=? c) && (c <=? 0x200A)
   || (c =? 0x2028) || (c =? 0x2029) || (c =? 0x202F) || (c =? 0x205F)
   || (c =? 0x3000))%N.

Definition is_ascii (c : N) : bool := (c <? 128)%N.

Definition isupper (c : N) : bool := ((65 <=? c) && (c <=? 90))%N.

Definition islower (c : N) : bool := ((97 <=? c) && (c <=? 122))%N.

Definition isdigit (c : N) : bool := ((48 <=? c) && (c <=? 57))%N.

(** The case mappings of the ASCII range. *)
Definition lower_char (c : N) : N := if isupper c then (c + 32)%N else c.

Definition upper_char (c : N) : N := if islower c then (c - 32)%N else c.

(** What the program asks of the Unicode character database, outside the
    ASCII range. *)
Record Ucd := {
  (** the full lower-case mapping of a character, which [lower()] applies,
      and the full mapping [capitalize()] applies to a first character
      (title case) *)
  ucd_lower : N -> chars;
  ucd_title : N -> chars;
  (** the properties Cased and Case_Ignorable, which decide the lower case
      of a capital sigma *)
  ucd_cased : N -> bool;
  ucd_case_ignorable : N -> bool;
  (** [str.isalnum] of one character *)
  ucd_alnum : N -> bool
}.

Definition to_lower_full (u : Ucd) (c : N) : chars :=
  if is_ascii c then [lower_char c] else ucd_lower u c.

Definition to_title_full (u : Ucd) (c : N) : chars :=
  if is_ascii c then [upper_char c] else ucd_title u c.

Definition isalnum (u : Ucd) (c : N) : bool :=
  if is_ascii c then isupper c || islower c || isdigit c else ucd_alnum u c.

(** The first character of [l] that is not case-ignorable. *)
Fixpoint first_not_ignorable (u : Ucd) (l : chars) : option N :=
  match l with
  | [] => None
  | c :: l' => if ucd_case_ignorable u c then first_not_ignorable u l' else Some c
  end.

(** Whether a capital sigma stands at the end of a word: a cased character
    comes before it and none after it, case-ignorable characters apart.
    [before] holds the characters before the sigma, the nearest first. *)
Definition final_sigma (u : Ucd) (before after : chars) : bool :=
  match first_not_ignorable u before with
  | Some c =>
      ucd_cased u c
      && match first_not_ignorable u after with
         | Some d => negb (ucd_cased u d)
         | None => true
         end
  | None => false
  end.

(** The lower case of the character [c] that stands between [before] and
    [after]: U+03A3 becomes U+03C2 at the end of a word and U+03C3
    elsewhere; any other character has its full lower-case mapping. *)
Definition lower_in_context (u : Ucd) (before after : chars) (c : N) : chars :=
  if (c =? 0x3A3)%N then [if final_sigma u before after then 0x3C2%N else 0x3C3%N]
  else to_lower_full u c.

Fixpoint lower_from (u : Ucd) (before l : chars) : chars :=
  match l with
  | [] => []
  | c :: after => lower_in_context u before after c ++ lower_from u (c :: before) after
  end.

(** [str.lower] *)
Definition lower (u : Ucd) (l : chars) : chars := lower_from u [] l.

(** [str.capitalize]: the first character in title case, the rest in lower
    case. *)
Definition capitalize (u : Ucd) (w : chars) : chars :=
  match w with
  | [] => []
  | c :: r => to_title_full u c ++ lower_from u [c] r
  end.

Fixpoint lstrip (l : chars) : chars :=
  match l with
  | c :: l' => if isspace c then lstrip l' else l
  | [] => []
  end.

Definition rstrip (l : chars) : chars := reverse (lstrip (reverse l)).

(** [str.strip()] *)
Definition strip (l : chars) : chars := rstrip (lstrip l).

(** The fields of [l] between the characters chosen by [sep]; there is
    always at least one field, and fields may be empty.  This is
    [str.split(c)] when [sep] recognises the single character [c]. *)
Fixpoint fields {A} (sep : A -> bool) (l : list A) : list (list A) :=
  match l with
  | [] => [[]]
  | c :: l' =>
      if sep c then [] :: fields sep l'
      else match fields sep l' with
           | w :: ws => (c :: w) :: ws
           | [] => [[c]]
           end
  end.

Definition nonempty {A} (w : list A) : bool :=
  match w with [] => false | _ :: _ => true end.

(** [str.split()] without argument: the non-empty fields between runs of
    white space. *)
Definition split (l : chars) : list chars := filter nonempty (fields isspace l).

(** [str.split(c)] *)
Definition split_on (c : N) (l : chars) : list chars :=
  fields (fun x => bool_decide (x = c)) l.

(** [sep.join(ws)] *)
Fixpoint join {A} (sep : list A) (ws : list (list A)) : list A :=
  match ws with
  | [] => []
  | [w] => w
  | w :: ws' => w ++ sep ++ join sep ws'
  end.

(** The order of [str]: code points compared position by position. *)
Fixpoint chars_leb (a b : chars) : bool :=
  match a, b with
  | [], _ => true
  | _ :: _, [] => false
  | x :: a', y :: b' => ((x <? y) || (x =? y) && chars_leb a' b')%N
  end.

End PyStr.

Import PyStr.

(** ** The name pipeline of [process] *)

(** [to_proper_case(name)]:
    [' '.join(word.capitalize() for word in name.strip().lower().split())] *)
Definition to_proper_case_chars (u : Ucd) (name : chars) : chars :=
  join [32%N] (map (capitalize u) (split (lower u (strip name)))).

Definition to_proper_case (u : Ucd) (name : string) : string :=
  encode (to_proper_case_chars u (decode name)).

(** [[line.strip() for line in names_text.split('\n') if line.strip()]] *)
Definition split_names_chars (names_text : chars) : list chars :=
  map strip (filter (fun line => nonempty (strip line)) (split_on 10%N names_text)).

Definition split_names (names_text : string) : list string :=
  map encode (split_names_chars (decode names_text)).

(** [a <= b] on [str] *)
Definition py_le (a b : string) : Prop := chars_leb (decode a) (decode b) = true.

Global Instance py_le_dec : RelDecision py_le :=
  fun a b => decide (chars_leb (decode a) (decode b) = true).

(** [list.sort()] on strings: ascending in the order of [str]. *)
Definition py_sort (l : list string) : list string := merge_sort py_le l.

(** The branch of [process] that fixes the order and the casing of the
    names: [font == 'gujarati'] keeps the list, any other style passes each
    name through [to_proper_case] and sorts the list. *)
Definition proper_names_of (u : Ucd) (font : string) (names : list string) : list string :=
  if decide (font = "gujarati") then names
  else py_sort (map (to_proper_case u) names).


(** ** Further [str] and [os.path] helpers *)

Module PyPath.

(** [s.lower()] *)
Definition str_lower (u : Ucd) (s : string) : string := encode (lower u (decode s)).

(** [s.startswith(p)], [s.endswith(p)], [sub in s] *)
Fixpoint is_prefix (p l : bytes) : bool :=
  match p, l with
  | [], _ => true
  | a :: p', b :: l' => bool_decide (a = b) && is_prefix p' l'
  | _ :: _, [] => false
  end.

Definition startswith (s p : string) : bool :=
  is_prefix (of_string p) (of_string s).

Definition endswith (s p : string) : bool :=
  is_prefix (reverse (of_string p)) (reverse (of_string s)).

Fixpoint contains_chars (sub l : bytes) : bool :=
  is_prefix sub l ||
  match l with
  | [] => false
  | _ :: l' => contains_chars sub l'
  end.

Definition contains (sub s : string) : bool :=
  contains_chars (of_string sub) (of_string s).

(** [s.replace(old, new)] for a non-empty [old]: every occurrence, left to
    right, without overlap.  [skip] counts the characters of a match that
    are still to be dropped. *)
Fixpoint replace_go (old new : bytes) (skip : nat) (l : bytes) : bytes :=
  match l with
  | [] => []
  | c :: l' =>
      match skip with
      | S k => replace_go old new k l'
      | O =>
          if is_prefix old l
          then new ++ replace_go old new (pred (length old)) l'
          else c :: replace_go old new O l'
      end
  end.

Definition str_replace (s old new : string) : string :=
  to_string (replace_go (of_string old) (of_string new) O (of_string s)).

(** [s[:n]] *)
Definition str_take (n : nat) (s : string) : string :=
  encode (take n (decode s)).

(** The first [n] bytes of a text. *)
Definition bytes_take (n : nat) (s : string) : string :=
  to_string (take n (of_string s)).

(** A decimal digit, as a byte. *)
Definition is_digit_byte (b : ascii) : bool :=
  let n := N_of_ascii b in ((48 <=? n) && (n <=? 57))%N.

(** [os.path.join(a, b)], POSIX flavour *)
Definition os_path_join (a b : string) : string :=
  if startswith b "/" then b
  else if bool_decide (a = "") || endswith a "/" then a +:+ b
  else a +:+ "/" +:+ b.

(** [os.path.basename(p)]: what follows the last slash *)
Definition os_path_basename (p : string) : string :=
  to_string (List.last (fields (fun c => bool_decide (c = "/"%char)) (of_string p)) []).

End PyPath.

Import PyPath.

(** ** Exceptions *)

(** The outcome of a call that may raise; an exception is known by the text
    [str(e)] gives, the only thing the program ever reads of it. *)
Inductive Result (A : Type) : Type :=
| Ok (a : A)
| Raise (msg : string).
Arguments Ok {A} a.
Arguments Raise {A} msg.

Definition is_ok {A} (r : Result A) : bool :=
  match r with Ok _ => true | Raise _ => false end.

(** ** Pictures, fonts and files *)

Definition RGB : Type := Z * Z * Z.

(** [(left, top, right, bottom)], as [draw.textbbox] returns it *)
Definition BBox : Type := Z * Z * Z * Z.

(** One shaped glyph: [info.codepoint] and the four fields of its position,
    in 26.6 fixed point. *)
Record Glyph := {
  g_codepoint : Z;
  g_x_offset : Z;
  g_y_offset : Z;
  g_x_advance : Z;
  g_y_advance : Z
}.

(** [face.glyph.bitmap] with [bitmap_left] and [bitmap_top] after
    [face.load_glyph] *)
Record GlyphBitmap := {
  bm_width : Z;
  bm_rows : Z;
  bm_left : Z;
  bm_top : Z;
  (** [Some msg] when [Image.frombytes] on the buffer of the bitmap, or
      [draw.bitmap] with the image made of it, raises [msg] *)
  bm_error : option string
}.

(** What a loaded font answers: [draw.textbbox((0, 0), text, font=font)],
    and whether drawing the text with it fails. *)
Record Face := {
  face_textbbox : string -> Result BBox;
  (** [Some msg] when [draw.text(xy, text, font=font)] raises [msg] *)
  face_draw_error : string -> option string
}.

(** A PIL font object, with the [_font_path] attribute [get_font_path] may
    attach to it. *)
Record Font := {
  font_face : Face;
  font_path_attr : option string
}.

Inductive DrawOp :=
| DrawText (x : Q) (y : Z) (text : string) (fill : RGB) (font : Font)
| DrawBitmap (x : Q) (y : Z) (glyph : Z) (fill : RGB).

(** An image in memory: its size, its pixels as loaded, and what has been
    drawn on it since. *)
Record Picture := {
  pic_width : Z;
  pic_height : Z;
  pic_pixels : string;
  pic_ops : list DrawOp
}.

Inductive ImageFormat := JPEG | PNG.

Inductive Content :=
| CDir
| CBytes (data : string)
| CImage (fmt : ImageFormat) (pic : Picture)
| CPdf (pages : list Picture).

(** The file system: the paths that exist, with what they hold. *)
Abbreviation FS := (gmap string Content).

(** [os.path.exists(p)] *)
Definition path_exists (fs : FS) (p : string) : bool :=
  bool_decide (is_Some (fs !! p)).

(** ** The environment

    Everything the program asks of its libraries and of the machine it runs
    on.  Each field is the answer of one call; a [Result] answer can be an
    exception. *)

Record Manifest := {
  info_session_id : string;
  info_names : list string;
  info_files : list (gmap string string);
  info_has_pdf : bool;
  info_has_combined_pdf : bool;
  info_created : string
}.

Record Env := {
  (** the Unicode character database of the Python build *)
  env_ucd : Ucd;
  (** [os.path.expanduser('~')] *)
  env_home : string;
  (** [HARFBUZZ_AVAILABLE] *)
  env_harfbuzz : bool;
  (** [ImageFont.truetype(path, size)] *)
  env_truetype : string -> Z -> Result Face;
  (** [ImageFont.load_default()] *)
  env_default_face : Face;
  (** [glob.glob(pattern)] and [glob.glob(pattern, recursive=True)] *)
  env_glob : string -> list string;
  env_glob_rec : string -> list string;
  (** [os.listdir(path)] *)
  env_listdir : string -> list string;
  (** [freetype.Face(path)], [set_char_size(size * 64)], a buffer with the
      text and [harfbuzz.shape]: the shaped glyphs of [buf] *)
  env_shape : string -> Z -> string -> Result (list Glyph);
  (** [face.load_glyph(index)] then [face.glyph.bitmap] *)
  env_load_glyph : string -> Z -> Z -> Result GlyphBitmap;
  (** [unicodedata.normalize('NFC', s)] *)
  env_nfc : string -> string;
  (** [int(s, 16)] *)
  env_int16 : string -> Result Z;
  (** [img2pdf.convert(path)] on the image the path holds: the pages of the
      PDF it builds *)
  env_img2pdf : Picture -> Result (list Picture);
  (** [Some msg] when creating or writing the path fails with [msg] *)
  env_write_error : string -> option string;
  (** the chunks [json.dump(info, f, indent=2)] passes to [f.write] *)
  env_json_chunks : Manifest -> list string;
  (** [Some (n, msg)] when writing the manifest raises [msg] after the file
      was opened, be it in [json.dump] or when the file is flushed and
      closed; [n] bytes of the text have reached the file by then *)
  env_dump_error : Manifest -> option (nat * string);
  (** [int(datetime.now().timestamp())] when the template is stored *)
  env_upload_time : Z;
  (** [uuid.uuid4().hex] and [int(datetime.now().timestamp() * 1000000)]
      when the session is named *)
  env_uuid_hex : string;
  env_session_time : Z;
  (** [datetime.now().strftime('%Y-%m-%d %H:%M:%S')] when the manifest is
      built *)
  env_created : string
}.

(** ** Font verification and the font resolver *)

(** The probe characters of [check_font_supports_gujarati]: the letters
    U+0A85, U+0A95, U+0A97, U+0A9C and U+0AA8. *)
Definition test_chars : list string := ["અ"; "ક"; "ગ"; "જ"; "ન"].

(** The [for test_char in test_chars] loop.  [Some true] is the [return
    True] inside it; [None] is falling out of the loop.  A [textbbox] that
    raises is caught by the inner [except: continue]; the tuple [bbox] has
    four entries, so [bbox and ...] only tests the width. *)
Fixpoint probe_loop (test_font : Face) (cs : list string) : option bool :=
  match cs with
  | [] => None
  | test_char :: cs' =>
      match face_textbbox test_font test_char with
      | Ok (x0, _, x1, _) =>
          if 0 <? x1 - x0 then Some true else probe_loop test_font cs'
      | Raise _ => probe_loop test_font cs'
      end
  end.

(** [check_font_supports_gujarati(font_path)] *)
Definition check_font_supports_gujarati (env : Env) (font_path : string) : Result bool :=
  let try_block : Result (option bool) :=
    match env_truetype env font_path 12 with
    | Ok test_font => Ok (probe_loop test_font test_chars)
    | Raise msg => Raise msg
    end in
  match try_block with
  | Ok (Some verdict) => Ok verdict
  | Ok None => Ok false
  | Raise _ => Ok false          (* except Exception: pass *)
  end.

(** The body every search loop of [find_gujarati_font] runs on a candidate:
    [if check_font_supports_gujarati(p): return ImageFont.truetype(p, size)]
    inside a [try] whose handler goes on with the next candidate. *)
Definition try_candidate (env : Env) (font_size : Z) (font_path : string) : option Font :=
  match check_font_supports_gujarati env font_path with
  | Ok true =>
      match env_truetype env font_path font_size with
      | Ok face => Some {| font_face := face; font_path_attr := None |}
      | Raise _ => None
      end
  | _ => None
  end.

(** The first candidate, in order, that [f] accepts. *)
Fixpoint first_some {A B} (f : A -> option B) (l : list A) : option B :=
  match l with
  | [] => None
  | a :: l' => match f a with Some b => Some b | None => first_some f l' end
  end.

Definition gujarati_font_names : list string :=
  ["shruti"; "shvruti"; "noto"; "gujarati"; "gujrati";
   "lohit-gujarati"; "lohit gujarati"; "mukta";
   "prabhki"; "rekha"; "kalapi"].

Definition user_fonts_dir (env : Env) : string :=
  env_home env +:+ "/AppData/Local/Microsoft/Windows/Fonts/".

Definition search_paths (env : Env) : list string :=
  ["C:/Windows/Fonts/";
   user_fonts_dir env;
   "/System/Library/Fonts/";
   "/System/Library/Fonts/Supplemental/";
   "/usr/share/fonts/";
   "/usr/share/fonts/truetype/"].

Definition exact_matches (env : Env) : list string :=
  [os_path_join (user_fonts_dir env) "NotoSansGujarati-Regular.ttf";
   os_path_join (user_fonts_dir env) "NotoSansGujarati-Bold.ttf";
   os_path_join (user_fonts_dir env) "NotoSansGujarati-Medium.ttf";
   "C:/Windows/Fonts/NotoSansGujarati-Regular.ttf";
   "C:/Windows/Fonts/NotoSansGujarati-Bold.ttf";
   "C:/Windows/Fonts/NotoSansGujarati-Medium.ttf";
   "C:/Windows/Fonts/NotoSansGujarati-Regular.otf";
   "C:/Windows/Fonts/NotoSansGujarati-Bold.otf";
   "C:/Windows/Fonts/shvruti.ttf";
   "C:/Windows/Fonts/SHRUTI.TTF";
   "C:/Windows/Fonts/shruti.ttf";
   "/usr/share/fonts/truetype/noto/NotoSansGujarati-Regular.ttf";
   "/usr/share/fonts/truetype/lohit-gujarati/Lohit-Gujarati.ttf";
   "/System/Library/Fonts/Supplemental/NotoSansGujarati-Regular.ttf"].

(** The candidates of the keyword scan, in the order the loops meet them. *)
Definition keyword_candidates (env : Env) (fs : FS) : list string :=
  font_dir ← filter (path_exists fs) (search_paths env);
  font_path ← (ext ← ["*.ttf"; "*.TTF"; "*.otf"; "*.OTF"];
               env_glob env (os_path_join font_dir ext));
  if existsb (fun keyword =>
                contains keyword (str_lower (env_ucd env) (os_path_basename font_path)))
             gujarati_font_names
  then [font_path] else [].

(** The candidates of the recursive pattern scan. *)
Definition pattern_candidates (env : Env) (fs : FS) : list string :=
  base_path ← filter (path_exists fs) (search_paths env);
  pattern ← [os_path_join (os_path_join base_path "**") "*Noto*Gujarati*.ttf";
             os_path_join (os_path_join base_path "**") "*Noto*Gujarati*.otf";
             os_path_join (os_path_join base_path "**") "*gujarati*.ttf";
             os_path_join (os_path_join base_path "**") "*gujarati*.otf"];
  env_glob_rec env pattern.

Definition arial_unicode_paths : list string :=
  ["C:/Windows/Fonts/ARIALUNI.TTF";
   "C:/Windows/Fonts/arialuni.ttf";
   "C:/Windows/Fonts/Arial Unicode MS.ttf"].

(** [find_gujarati_font(font_size)]: the four searches in turn, each
    returning at its first accepted candidate. *)
Definition find_gujarati_font (env : Env) (fs : FS) (font_size : Z) : option Font :=
  match first_some (try_candidate env font_size)
                   (filter (path_exists fs) (exact_matches env)) with
  | Some font => Some font
  | None =>
  match first_some (try_candidate env font_size) (keyword_candidates env fs) with
  | Some font => Some font
  | None =>
  match first_some (try_candidate env font_size) (pattern_candidates env fs) with
  | Some font => Some font
  | None =>
      first_some (try_candidate env font_size)
                 (filter (path_exists fs) arial_unicode_paths)
  end end end.

(** [get_gujarati_font_path()] (defined twice in the source, with the same
    body) *)
Definition get_gujarati_font_path (env : Env) (fs : FS) : option string :=
  match filter (path_exists fs)
               [os_path_join (user_fonts_dir env) "NotoSansGujarati-Regular.ttf";
                "C:/Windows/Fonts/NotoSansGujarati-Regular.ttf";
                "C:/Windows/Fonts/shvruti.ttf";
                "C:/Windows/Fonts/SHRUTI.TTF"] with
  | font_path :: _ => Some font_path
  | [] =>
      if path_exists fs (user_fonts_dir env) then
        first_some
          (fun font_file =>
             if contains "noto" (str_lower (env_ucd env) font_file)
                && contains "gujarati" (str_lower (env_ucd env) font_file)
                && contains "regular" (str_lower (env_ucd env) font_file)
             then
               let font_path := os_path_join (user_fonts_dir env) font_file in
               if endswith font_path ".ttf" || endswith font_path ".otf"
               then Some font_path else None
             else None)
          (env_listdir env (user_fonts_dir env))
      else None
  end.

(** A string is true in a condition when it is not empty; [None] is false. *)
Definition truthy (o : option string) : option string :=
  match o with
  | Some p => if bool_decide (p = "") then None else Some p
  | None => None
  end.

(** [font_map.get(font_name, 'arial.ttf')]; the inner [None] is the value
    [None] the dictionary holds for the cursive styles. *)
Definition font_map_get (font_name : string) : option string :=
  if bool_decide (font_name = "arial") then Some "arial.ttf"
  else if bool_decide (font_name = "times") then Some "times.ttf"
  else if bool_decide (font_name ∈ ["cursive"; "mongolia"; "brush"; "lucida"; "gujarati"]) then None
  else Some "arial.ttf".

Definition plain_font (face : Face) : Font :=
  {| font_face := face; font_path_attr := None |}.

(** [try: return ImageFont.truetype(p, size) except: continue] on a path
    that exists *)
Definition try_truetype (env : Env) (fs : FS) (font_size : Z) (font_path : string) : option Font :=
  if path_exists fs font_path then
    match env_truetype env font_path font_size with
    | Ok face => Some (plain_font face)
    | Raise _ => None
    end
  else None.

(** [get_font_path(font_name, font_size)] *)
Definition get_font_path (env : Env) (fs : FS) (font_name : string) (font_size : Z) : Font :=
  let after_gujarati : Font + option string :=
    if bool_decide (font_name = "gujarati") then
      match find_gujarati_font env fs font_size with
      | Some gujarati_font =>
          inl match truthy (get_gujarati_font_path env fs) with
              | Some font_path =>
                  {| font_face := font_face gujarati_font; font_path_attr := Some font_path |}
              | None => gujarati_font
              end
      | None => inr (Some "arial.ttf")
      end
    else inr (font_map_get font_name) in
  match after_gujarati with
  | inl font => font
  | inr font_file =>
      let from_system :=
        match truthy font_file with
        | Some font_file =>
            first_some
              (fun base_path => try_truetype env fs font_size (os_path_join base_path font_file))
              (filter (path_exists fs)
                      ["C:/Windows/Fonts/"; "/System/Library/Fonts/"; "/usr/share/fonts/"])
        | None => None
        end in
      match from_system with
      | Some font => font
      | None =>
          let from_cursive :=
            if bool_decide (font_name ∈ ["cursive"; "mongolia"; "brush"; "lucida"]) then
              first_some (try_truetype env fs font_size)
                         ["C:/Windows/Fonts/BRUSHSCI.TTF";
                          "C:/Windows/Fonts/BRUSHSC.ttf";
                          "C:/Windows/Fonts/SCRIPTBL.TTF";
                          "C:/Windows/Fonts/LHANDW.TTF"]
            else None in
          match from_cursive with
          | Some font => font
          | None =>
              match env_truetype env "arial.ttf" font_size with
              | Ok face => plain_font face
              | Raise _ => plain_font (env_default_face env)
              end
          end
      end
  end.

(** ** Text layout and drawing *)

(** [sum(pos.x_advance // 64 for pos in buf.glyph_positions)] *)
Definition advance_sum (glyphs : list Glyph) : Z :=
  foldr (fun g acc => g_x_advance g / 64 + acc) 0 glyphs.

(** The glyph loop of [render_gujarati_with_harfbuzz]: the bitmaps drawn so
    far, and the pen [(current_x, current_y)] after the last glyph, or the
    exception of a [load_glyph], of [Image.frombytes] or of [draw.bitmap]. *)
Fixpoint render_glyphs (env : Env) (font_path : string) (font_size : Z) (fill_color : RGB)
    (glyphs : list Glyph) (current_x : Q) (current_y : Z) (ops : list DrawOp)
    : list DrawOp * Result (Q * Z) :=
  match glyphs with
  | [] => (ops, Ok (current_x, current_y))
  | g :: rest =>
      match env_load_glyph env font_path font_size (g_codepoint g) with
      | Raise msg => (ops, Raise msg)
      | Ok bitmap =>
          let drawn : Result (list DrawOp) :=
            if (0 <? bm_width bitmap) && (0 <? bm_rows bitmap) then
              match bm_error bitmap with
              | Some msg => Raise msg
              | None =>
                  let glyph_x :=
                    (current_x + inject_Z (g_x_offset g / 64) + inject_Z (bm_left bitmap))%Q in
                  let glyph_y := current_y - g_y_offset g / 64 - bm_top bitmap in
                  Ok (ops ++ [DrawBitmap glyph_x glyph_y (g_codepoint g) fill_color])
              end
            else Ok ops in
          match drawn with
          | Raise msg => (ops, Raise msg)
          | Ok ops' =>
              render_glyphs env font_path font_size fill_color rest
                (current_x + inject_Z (g_x_advance g / 64))%Q
                (current_y - g_y_advance g / 64)
                ops'
          end
      end
  end.

(** [render_gujarati_with_harfbuzz(draw, text, font_path, font_size, x, y,
    fill_color)]: the width of the rendered text, [current_x - x]. *)
Definition render_gujarati_with_harfbuzz (env : Env) (ops : list DrawOp) (text font_path : string)
    (font_size : Z) (x : Q) (y : Z) (fill_color : RGB) : list DrawOp * Result Q :=
  if negb (env_harfbuzz env) then (ops, Raise "HarfBuzz not available")
  else
    match env_shape env font_path font_size text with
    | Raise msg => (ops, Raise msg)
    | Ok glyphs =>
        match render_glyphs env font_path font_size fill_color glyphs x y ops with
        | (ops', Ok (current_x, _)) => (ops', Ok (current_x - x)%Q)
        | (ops', Raise msg) => (ops', Raise msg)
        end
    end.

(** The local variables [text_width] and [x_position] of
    [generate_certificate_image] once the name is drawn. *)
Record Layout := {
  text_width : Q;
  x_position : Q
}.

(** [x_position = center_x - (text_width / 2)] followed by
    [draw.text((x_position, y_pos), name, fill=rgb, font=font)] *)
Definition center_and_draw_text (font : Font) (name : string) (rgb : RGB) (center_x : Q)
    (y_pos : Z) (text_width : Q) (ops : list DrawOp) : list DrawOp * Result Layout :=
  let x_position := (center_x - text_width / 2)%Q in
  match face_draw_error (font_face font) name with
  | Some msg => (ops, Raise msg)
  | None =>
      (ops ++ [DrawText x_position y_pos name rgb font],
       Ok {| text_width := text_width; x_position := x_position |})
  end.

(** [bbox[2] - bbox[0]] of [draw.textbbox((0, 0), name, font=font)] *)
Definition bbox_width (font : Font) (name : string) : Result Z :=
  match face_textbbox (font_face font) name with
  | Ok (x0, _, x1, _) => Ok (x1 - x0)
  | Raise msg => Raise msg
  end.

(** [len(s)]: the number of characters *)
Definition len (s : string) : Z := Z.of_nat (length (decode s)).

(** The [try] block of the HarfBuzz branch. *)
Definition harfbuzz_draw (env : Env) (fs : FS) (font : Font) (name : string) (font_size : Z)
    (center_x : Q) (y_position : Z) (rgb : RGB) (ops : list DrawOp)
    : list DrawOp * Result Layout :=
  let font_path :=
    match truthy (font_path_attr font) with
    | Some p => Some p
    | None => get_gujarati_font_path env fs
    end in
  match truthy font_path with
  | Some font_path =>
      if path_exists fs font_path then
        match env_shape env font_path font_size name with
        | Raise msg => (ops, Raise msg)
        | Ok glyphs =>
            let text_width := inject_Z (advance_sum glyphs) in
            let x_position := (center_x - text_width / 2)%Q in
            match render_gujarati_with_harfbuzz env ops name font_path font_size
                    x_position y_position rgb with
            | (ops', Ok _) =>
                (ops', Ok {| text_width := text_width; x_position := x_position |})
            | (ops', Raise msg) => (ops', Raise msg)
            end
        end
      else (ops, Raise "Font path not found for HarfBuzz")
  | None => (ops, Raise "Font path not found for HarfBuzz")
  end.

(** Lines 369 to 440 of [generate_certificate_image]: measure the name,
    centre it and draw it. *)
Definition draw_name (env : Env) (fs : FS) (width : Z) (font_name : string) (font : Font)
    (name : string) (font_size y_position : Z) (rgb : RGB) (ops : list DrawOp)
    : list DrawOp * Result Layout :=
  let center_x := (inject_Z width / 2)%Q in
  if bool_decide (font_name = "gujarati") && env_harfbuzz env then
    match harfbuzz_draw env fs font name font_size center_x y_position rgb ops with
    | (ops', Ok layout) => (ops', Ok layout)
    | (ops', Raise _) =>
        let text_width :=
          match bbox_width font name with
          | Ok w => inject_Z w
          | Raise _ => (inject_Z (len name) * (inject_Z font_size * 0.5))%Q
          end in
        center_and_draw_text font name rgb center_x y_position text_width ops'
    end
  else
    let text_width :=
      match bbox_width font name with
      | Ok w => inject_Z w
      | Raise _ =>
          if bool_decide (font_name = "gujarati")
          then (inject_Z (len name) * (inject_Z font_size * 0.5))%Q
          else (inject_Z (len name) * (inject_Z font_size * 0.6))%Q
      end in
    center_and_draw_text font name rgb center_x y_position text_width ops.

(** ** File operations *)

(** Creating or replacing the file at [path]: the environment decides
    whether the write fails. *)
Definition fs_write (env : Env) (fs : FS) (path : string) (c : Content) : FS * Result unit :=
  match env_write_error env path with
  | Some msg => (fs, Raise msg)
  | None => (<[path := c]> fs, Ok tt)
  end.

(** [Image.open(path)] *)
Definition image_open (fs : FS) (path : string) : Result Picture :=
  match fs !! path with
  | Some (CImage _ pic) => Ok pic
  | Some _ => Raise "cannot identify image file"
  | None => Raise "No such file or directory"
  end.

(** [pikepdf.Pdf.open(path).pages] *)
Definition pdf_open (fs : FS) (path : string) : Result (list Picture) :=
  match fs !! path with
  | Some (CPdf pages) => Ok pages
  | Some _ => Raise "unable to find PDF header"
  | None => Raise "No such file or directory"
  end.

(** [os.makedirs(path, exist_ok=True)] *)
Definition makedirs (env : Env) (fs : FS) (path : string) : FS * Result unit :=
  match fs !! path with
  | Some CDir => (fs, Ok tt)
  | Some _ => (fs, Raise "File exists")
  | None => fs_write env fs path CDir
  end.

(** [shutil.copy(src, dst)] *)
Definition shutil_copy (env : Env) (fs : FS) (src dst : string) : FS * Result unit :=
  match fs !! src with
  | Some c => fs_write env fs dst c
  | None => (fs, Raise "No such file or directory")
  end.

(** ** The renderer *)

(** [s[i:i+2]] *)
Definition slice2 (i : nat) (s : string) : string :=
  encode (take 2 (drop i (decode s))).

(** [text_color.lstrip('#')] *)
Fixpoint lstrip_hash (s : string) : string :=
  match s with
  | String "#" s' => lstrip_hash s'
  | _ => s
  end.

(** [tuple(int(color[i:i+2], 16) for i in (0, 2, 4))] *)
Definition parse_color (env : Env) (text_color : string) : Result RGB :=
  let color := lstrip_hash text_color in
  match env_int16 env (slice2 0 color) with
  | Raise msg => Raise msg
  | Ok r =>
      match env_int16 env (slice2 2 color) with
      | Raise msg => Raise msg
      | Ok g =>
          match env_int16 env (slice2 4 color) with
          | Raise msg => Raise msg
          | Ok b => Ok (r, g, b)
          end
      end
  end.

(** [generate_certificate_image(template_path, name, font_name, font_size,
    y_position, text_color, output_path)]: the file system it leaves, and
    the dictionary [{'jpg': jpg_path, 'png': output_path}] as a pair. *)
Definition generate_certificate_image (env : Env) (fs : FS)
    (template_path name font_name : string) (font_size y_position : Z)
    (text_color output_path : string) : FS * Result (string * string) :=
  match image_open fs template_path with
  | Raise msg => (fs, Raise msg)
  | Ok template =>
      match parse_color env text_color with
      | Raise msg => (fs, Raise msg)
      | Ok rgb =>
          let font := get_font_path env fs font_name font_size in
          let name := if bool_decide (font_name = "gujarati") then env_nfc env name else name in
          match draw_name env fs (pic_width template) font_name font name
                  font_size y_position rgb (pic_ops template) with
          | (_, Raise msg) => (fs, Raise msg)
          | (ops, Ok _) =>
              let drawn :=
                {| pic_width := pic_width template; pic_height := pic_height template;
                   pic_pixels := pic_pixels template; pic_ops := ops |} in
              let jpg_path := str_replace output_path ".png" ".jpg" in
              match fs_write env fs jpg_path (CImage JPEG drawn) with
              | (fs1, Raise msg) => (fs1, Raise msg)
              | (fs1, Ok _) =>
                  match fs_write env fs1 output_path (CImage PNG drawn) with
                  | (fs2, Raise msg) => (fs2, Raise msg)
                  | (fs2, Ok _) => (fs2, Ok (jpg_path, output_path))
                  end
              end
          end
      end
  end.

(** ** The document assembler *)

(** [generate_pdf(image_path, pdf_path)].  [open(pdf_path, 'wb')] creates
    the file before [img2pdf.convert] runs, so a failed conversion leaves an
    empty file behind; every exception ends in [return False]. *)
Definition generate_pdf (env : Env) (fs : FS) (image_path pdf_path : string) : FS * bool :=
  match fs_write env fs pdf_path (CBytes "") with
  | (fs1, Raise _) => (fs1, false)
  | (fs1, Ok _) =>
      let converted :=
        match image_open fs1 image_path with
        | Ok pic => env_img2pdf env pic
        | Raise msg => Raise msg
        end in
      match converted with
      | Raise _ => (fs1, false)
      | Ok pages => (<[pdf_path := CPdf pages]> fs1, true)
      end
  end.

(** The [for pdf_file in existing_pdfs] loop of [combine_pdfs]: the pages
    of [merged_pdf]; a file that does not open is passed over. *)
Fixpoint merge_pages (fs : FS) (existing_pdfs : list string) (merged : list Picture)
    : list Picture :=
  match existing_pdfs with
  | [] => merged
  | pdf_file :: rest =>
      match pdf_open fs pdf_file with
      | Ok pages => merge_pages fs rest (merged ++ pages)
      | Raise _ => merge_pages fs rest merged
      end
  end.

(** [combine_pdfs(pdf_files, output_path)] *)
Definition combine_pdfs (env : Env) (fs : FS) (pdf_files : list string) (output_path : string)
    : FS * bool :=
  match pdf_files with
  | [] => (fs, false)
  | _ :: _ =>
      let existing_pdfs := filter (path_exists fs) pdf_files in
      match existing_pdfs with
      | [] => (fs, false)
      | _ :: _ =>
          let merged_pdf := merge_pages fs existing_pdfs [] in
          match fs_write env fs output_path (CPdf merged_pdf) with
          | (fs1, Raise _) => (fs1, false)
          | (fs1, Ok _) => (fs1, path_exists fs1 output_path)
          end
      end
  end.

(** ** The batch handler *)

(** What the browser posts, once Flask has read the form:
    [request.files.get('template')] with its file name and what was
    uploaded, and the form fields.  The two numeric fields are given as
    [int(request.form.get(..., default))] reads them: the number, or the
    [ValueError] that [int] raises on a text that is not a number (an
    absent field gives its default, 48 or 300).  The PDF flag is the
    outcome of [== '1']. *)
Record Request := {
  req_template : option (string * Content);
  req_font : string;
  req_fontSize : Result Z;
  req_yPosition : Result Z;
  req_textColor : string;
  req_names : string;
  req_generatePDF : bool
}.

(** The JSON answers of [process]: [Failure status message] is
    [{'success': False, 'message': message}] with that status,
    [Success session_id count has_pdf] the answer of a finished batch. *)
Inductive Response :=
| Failure (status : Z) (message : string)
| Success (session_id : string) (count : nat) (has_pdf : bool).

(** How a stretch of the handler ends: it goes on with a value, it
    [return]s a response, or an exception leaves it. *)
Inductive Control (A : Type) : Type :=
| Continue (a : A)
| Return (r : Response)
| Throw (msg : string).
Arguments Continue {A} a.
Arguments Return {A} r.
Arguments Throw {A} msg.

(** [''.join(c if c.isalnum() or c in (' ', '-', '_') else '_' for c in name)] *)
Definition safe_name (u : Ucd) (name : string) : string :=
  encode (map (fun c => if isalnum u c || bool_decide (c ∈ [32; 45; 95]%N)
                        then c else 95%N)
              (decode name)).

(** [f'cert_{index + 1}_{safe_name.replace(" ", "_")}.png'] *)
Definition output_filename (u : Ucd) (index : nat) (name : string) : string :=
  "cert_" +:+ pretty (Z.of_nat index + 1) +:+ "_"
  +:+ str_replace (safe_name u name) " " "_" +:+ ".png".

(** One entry of [generated_files]: a dictionary with the keys ['name'],
    ['jpg'] and, after a PDF was written, ['pdf']. *)
Abbreviation FileInfo := (gmap string string).

(** The body of the [for index, name in enumerate(proper_names)] loop. *)
Definition process_name (env : Env) (req : Request) (font_size y_position : Z)
    (template_path session_dir : string) (index : nat) (name : string) (fs : FS)
    : FS * Control FileInfo :=
  let output_filename := output_filename (env_ucd env) index name in
  let output_path := os_path_join session_dir output_filename in
  match generate_certificate_image env fs template_path name (req_font req) font_size
          y_position (req_textColor req) output_path with
  | (fs1, Raise error_msg) =>
      if bool_decide (req_font req = "gujarati")
         && contains "font" (str_lower (env_ucd env) error_msg)
      then (fs1, Return (Failure 500
              ("Error rendering Gujarati text: " +:+ error_msg
               +:+ ". Please ensure a Gujarati font is installed.")))
      else (fs1, Throw error_msg)
  | (fs1, Ok (result_jpg, result_png)) =>
      let jpg_name := os_path_basename result_jpg in
      match shutil_copy env fs1 result_jpg
              (os_path_join (os_path_join session_dir "jpg") jpg_name) with
      | (fs2, Raise msg) => (fs2, Throw msg)
      | (fs2, Ok _) =>
          let file_info : FileInfo := <["jpg" := jpg_name]> (<["name" := name]> ∅) in
          if req_generatePDF req then
            let pdf_path :=
              os_path_join (os_path_join session_dir "pdf")
                           (str_replace output_filename ".png" ".pdf") in
            let '(fs3, pdf_generated) := generate_pdf env fs2 result_png pdf_path in
            if pdf_generated && path_exists fs3 pdf_path
            then (fs3, Continue (<["pdf" := os_path_basename pdf_path]> file_info))
            else (fs3, Continue file_info)
          else (fs2, Continue file_info)
      end
  end.

(** The loop itself: [generated_files] grows by one entry per name, and the
    first name that ends the request ends the loop. *)
Fixpoint process_names (env : Env) (req : Request) (font_size y_position : Z)
    (template_path session_dir : string) (index : nat) (names : list string)
    (generated_files : list FileInfo) (fs : FS) : FS * Control (list FileInfo) :=
  match names with
  | [] => (fs, Continue generated_files)
  | name :: rest =>
      match process_name env req font_size y_position template_path session_dir index name fs with
      | (fs1, Continue file_info) =>
          process_names env req font_size y_position template_path session_dir (S index) rest
                        (generated_files ++ [file_info]) fs1
      | (fs1, Return r) => (fs1, Return r)
      | (fs1, Throw msg) => (fs1, Throw msg)
      end
  end.

(** The paths handed to [combine_pdfs]: the PDF of every entry that has
    one, if the file is there. *)
Definition pdf_files_of (fs : FS) (pdf_dir : string) (generated_files : list FileInfo)
    : list string :=
  file_info ← generated_files;
  match file_info !! "pdf" with
  | Some pdf =>
      let pdf_file_path := os_path_join pdf_dir pdf in
      if path_exists fs pdf_file_path then [pdf_file_path] else []
  | None => []
  end.

(** The text [json.dump] leaves in the file when it runs to its end. *)
Definition concat_chunks (chunks : list string) : string :=
  foldr String.app "" chunks.

Definition json_text (env : Env) (info : Manifest) : string :=
  concat_chunks (env_json_chunks env info).

(** ** The manifest write

    [with open(info_path, 'w') as f: json.dump(info, f, indent=2)] opens
    the file at its final path, which creates it or empties it, and then
    writes the text into it through the buffer of [f]; the text reaches the
    file from left to right, in pieces whose size the buffering decides.
    So from the [open] on the file holds the first [n] bytes of the text,
    for an [n] that grows from 0 to the length of the text. *)
Inductive WriteProgress :=
| NotOpened
| Written (n : nat).

(** The file system when the write has come as far as [progress]. *)
Definition manifest_write_upto (progress : WriteProgress) (info_path text : string) (fs : FS)
    : FS :=
  match progress with
  | NotOpened => fs
  | Written n => <[info_path := CBytes (bytes_take n text)]> fs
  end.

(** The write as [process] runs it: the [open] may fail, which leaves the
    file system as it was; after it the write may raise part-way, which
    leaves what was written until then; otherwise the whole text is
    written. *)
Definition write_manifest (env : Env) (fs : FS) (info_path : string) (info : Manifest)
    : FS * Result unit :=
  let text := json_text env info in
  match env_write_error env info_path with
  | Some msg => (manifest_write_upto NotOpened info_path text fs, Raise msg)
  | None =>
      match env_dump_error env info with
      | Some (n, msg) => (manifest_write_upto (Written n) info_path text fs, Raise msg)
      | None =>
          (manifest_write_upto (Written (String.length text)) info_path text fs, Ok tt)
      end
  end.

Definition session_id_of (env : Env) : string :=
  "cert_" +:+ str_take 16 (env_uuid_hex env) +:+ "."
  +:+ pretty (env_session_time env `mod` 100000000).

Definition template_path_of (env : Env) : string :=
  os_path_join "uploads" ("template_" +:+ pretty (env_upload_time env) +:+ ".png").

(** The three [os.makedirs] calls that set up the session directory. *)
Definition make_session_dirs (env : Env) (fs : FS) (session_dir : string) : FS * Result unit :=
  match makedirs env fs session_dir with
  | (fs1, Raise msg) => (fs1, Raise msg)
  | (fs1, Ok _) =>
      match makedirs env fs1 (os_path_join session_dir "jpg") with
      | (fs2, Raise msg) => (fs2, Raise msg)
      | (fs2, Ok _) => makedirs env fs2 (os_path_join session_dir "pdf")
      end
  end.

(** The message of the 400 answer when no Gujarati font is found. *)
Definition gujarati_font_not_found : string :=
  "Gujarati font not found on your system. Please install a Gujarati font like Shruti or Noto Sans Gujarati. Common locations: C:/Windows/Fonts/".

Definition session_dir_of (env : Env) : string :=
  os_path_join "output" (session_id_of env).

(** The part of [process] from the session directory on: the font check,
    the per-name loop, the combined PDF and the manifest. *)
Definition run_batch (env : Env) (req : Request) (font_size y_position : Z)
    (template_path : string) (proper_names : list string) (fs : FS) : FS * Control Response :=
  let session_id := session_id_of env in
  let session_dir := session_dir_of env in
  match make_session_dirs env fs session_dir with
  | (fs1, Raise msg) => (fs1, Throw msg)
  | (fs1, Ok _) =>
      let font_missing :=
        if bool_decide (req_font req = "gujarati")
        then match find_gujarati_font env fs1 12 with Some _ => false | None => true end
        else false in
      if font_missing then
        (fs1, Return (Failure 400 gujarati_font_not_found))
      else
        match process_names env req font_size y_position template_path session_dir 0
                proper_names [] fs1 with
        | (fs2, Return r) => (fs2, Return r)
        | (fs2, Throw msg) => (fs2, Throw msg)
        | (fs2, Continue generated_files) =>
            let '(fs3, has_combined_pdf) :=
              if req_generatePDF req then
                match pdf_files_of fs2 (os_path_join session_dir "pdf") generated_files with
                | [] => (fs2, false)
                | pdf_files =>
                    combine_pdfs env fs2 pdf_files
                                 (os_path_join session_dir "combined_certificates.pdf")
                end
              else (fs2, false) in
            let info :=
              {| info_session_id := session_id;
                 info_names := proper_names;
                 info_files := generated_files;
                 info_has_pdf := req_generatePDF req;
                 info_has_combined_pdf := has_combined_pdf;
                 info_created := env_created env |} in
            match write_manifest env fs3 (os_path_join session_dir "info.json") info with
            | (fs4, Raise msg) => (fs4, Throw msg)
            | (fs4, Ok _) =>
                (fs4, Continue (Success session_id (length generated_files) (req_generatePDF req)))
            end
        end
  end.

(** [process()]: the checks on the upload and the form, then the batch; the
    outermost handler turns any exception into a 500 answer. *)
Definition process (env : Env) (req : Request) (fs : FS) : FS * Response :=
  let '(fs', outcome) :=
    match req_template req with
    | None => (fs, Return (Failure 400 "No template file uploaded"))
    | Some (filename, uploaded) =>
        if bool_decide (filename = "") then (fs, Return (Failure 400 "No file selected"))
        else if negb (endswith (str_lower (env_ucd env) filename) ".png")
        then (fs, Return (Failure 400 "Please upload a PNG image"))
        else
          let template_path := template_path_of env in
          match fs_write env fs template_path uploaded with
          | (fs1, Raise msg) => (fs1, Throw msg)
          | (fs1, Ok _) =>
              match image_open fs1 template_path with
              | Raise _ => (delete template_path fs1, Return (Failure 400 "Invalid image file"))
              | Ok _ =>
                  let font := req_font req in
                  match req_fontSize req with
                  | Raise msg => (fs1, Throw msg)
                  | Ok size =>
                      let font_size := Z.max 10 size in
                      match req_yPosition req with
                      | Raise msg => (fs1, Throw msg)
                      | Ok y_position =>
                          let names_text := req_names req in
                          if negb (nonempty (strip (decode names_text)))
                          then (fs1, Return (Failure 400 "Please provide at least one name"))
                          else
                            let names := split_names names_text in
                            let proper_names := proper_names_of (env_ucd env) font names in
                            run_batch env req font_size y_position template_path
                                      proper_names fs1
                      end
                  end
              end
          end
    end in
  match outcome with
  | Continue r => (fs', r)
  | Return r => (fs', r)
  | Throw msg => (fs', Failure 500 msg)
  end.

(** ** Title case and white space, as the specification words them *)

(** A word in title case: its first character capitalised, the rest in
    lower case. *)
Definition title_word (u : Ucd) (w : chars) : chars :=
  match w with
  | [] => []
  | c :: r => to_title_full u c ++ lower u r
  end.

(** Title case of a name: each white-space-separated word in title case,
    the words put together with one space. *)
Definition title_case_chars (u : Ucd) (name : chars) : chars :=
  join [32%N] (map (title_word u) (split name)).


(** Code points of the range a decoder gives and an encoder takes back:
    below 2^21, which includes all of Unicode. *)
Definition code_points (l : chars) : Prop := Forall (fun c => (c < 0x200000)%N) l.

(** A name written with ASCII characters only. *)
Definition ascii_name (name : string) : bool := forallb is_ascii (decode name).

(** A word: not empty, and free of white space. *)
Definition is_word (w : chars) : Prop :=
  w ≠ [] ∧ Forall (fun c => isspace c = false) w.

(** Every white-space character of [l] is a space, and a character that is
    not white space follows it. *)
Fixpoint single_spaced (l : chars) : bool :=
  match l with
  | [] => true
  | a :: t =>
      (if isspace a
       then bool_decide (a = 32%N)
            && match t with b :: _ => negb (isspace b) | [] => false end
       else true)
      && single_spaced t
  end.

(** Two facts of the Unicode character database: a white-space character
    has no case, and the case mappings of a character that is not white
    space are not empty and hold no white space. *)
Definition case_keeps_space (u : Ucd) : Prop :=
  forall c,
    if isspace c
    then ucd_lower u c = [c] ∧ ucd_title u c = [c]
    else is_word (ucd_lower u c) ∧ is_word (ucd_title u c).

(** ** Font verification, as the specification words it *)

(** The width of a bounding box. *)
Definition box_width (b : BBox) : Z :=
  let '(x0, _, x1, _) := b in x1 - x0.

(** The boxes a font reports are boxes: the left edge is not to the right
    of the right edge. *)
Definition boxes_well_formed (face : Face) : Prop :=
  forall text b, face_textbbox face text = Ok b -> 0 <= box_width b.

(** Some probe character gets a box that satisfies [P]. *)
Definition some_probe (face : Face) (P : BBox -> Prop) : Prop :=
  exists c b, c ∈ test_chars ∧ face_textbbox face c = Ok b ∧ P b.

(** ** The combined document, as the specification words it *)

(** The pages an input contributes: those of the PDF it holds; a path that
    holds no readable PDF has none. *)
Definition pages_of (fs : FS) (path : string) : list Picture :=
  match pdf_open fs path with
  | Ok pages => pages
  | Raise _ => []
  end.

(** ** Layout, as the specification words it *)

(** The factor of the last-resort estimate
    [characterCount * fontSize * widthFactor], per style. *)
Definition width_factor (font_name : string) : Q :=
  if bool_decide (font_name = "gujarati") then 0.5%Q else 0.6%Q.






(** ** The separator of [os.path.join] *)

(** What [os.path.join(a, b)] puts between [a] and a relative [b]. *)
Definition path_sep (a : string) : bytes :=
  if bool_decide (a = "") || endswith a "/" then [] else ["/"%char].

(** ** Example data *)

(** The scenario of the specification, and a Gujarati list that is not in
    code order: the first is sorted and title-cased, the second is kept. *)
Definition names_latin_example : string :=
  "govind patel" +:+ String "010" "ANJU SHAH".

Definition names_gujarati_example : string :=
  "ઉમેશકુમાર પટેલ" +:+ String "010" "અનિલ શાહ".

(** An excerpt of the Unicode character database: the ASCII range, É and é
    (U+00C9, U+00E9), ß (U+00DF), ẞ (U+1E9E), İ (U+0130), ŉ (U+0149), the
    modifier apostrophe (U+02BC), the combining dot above (U+0307), the
    sigmas Σ, ς and σ (U+03A3, U+03C2, U+03C3) and the Gujarati block.  For
    any other character it answers that the character has no case and is
    not alphanumeric. *)
Definition ucd_excerpt : Ucd :=
  {| ucd_lower := fun c =>
       if (c =? 0xC9)%N then [0xE9%N]
       else if (c =? 0x1E9E)%N then [0xDF%N]
       else if (c =? 0x130)%N then [0x69%N; 0x307%N]
       else if (c =? 0x3A3)%N then [0x3C3%N]
       else [c];
     ucd_title := fun c =>
       if (c =? 0xE9)%N then [0xC9%N]
       else if (c =? 0xDF)%N then [0x53%N; 0x73%N]
       else if (c =? 0x149)%N then [0x2BC%N; 0x4E%N]
       else if (c =? 0x3C2)%N || (c =? 0x3C3)%N then [0x3A3%N]
       else [c];
     ucd_cased := fun c =>
       isupper c || islower c
       || bool_decide (c ∈ [0xC9; 0xE9; 0xDF; 0x1E9E; 0x130; 0x149; 0x3A3; 0x3C2; 0x3C3]%N);
     ucd_case_ignorable := fun c =>
       bool_decide (c ∈ [0x27; 0x2E; 0x3A; 0x5E; 0x60; 0x2BC; 0x307]%N);
     ucd_alnum := fun c =>
       (bool_decide (c ∈ [0xC9; 0xE9; 0xDF; 0x1E9E; 0x130; 0x149; 0x2BC; 0x3A3; 0x3C2; 0x3C3;
                          0xABD; 0xAD0; 0xAF9])
        || (0xA85 <=? c) && (c <=? 0xA8D) || (0xA8F <=? c) && (c <=? 0xA91)
        || (0xA93 <=? c) && (c <=? 0xAA8) || (0xAAA <=? c) && (c <=? 0xAB0)
        || (0xAB2 <=? c) && (c <=? 0xAB3) || (0xAB5 <=? c) && (c <=? 0xAB9)
        || (0xAE0 <=? c) && (c <=? 0xAE1) || (0xAE6 <=? c) && (c <=? 0xAEF))%N |}.

(** An example face: [boxes] lists the texts it measures, with the width
    of each; any other text makes [textbbox] raise, and drawing never
    fails. *)
Definition table_face (boxes : list (string * Z)) : Face :=
  {| face_textbbox := fun text =>
       match list_find (fun e => bool_decide (e.1 = text)) boxes with
       | Some (_, (_, w)) => Ok (0, 0, w, 12)
       | None => Raise "glyph not available"
       end;
     face_draw_error := fun _ => None |}.

(** An environment with no shaping engine and one loadable font file,
    [font_file], whose face is [face]; every write succeeds. *)
Definition one_font_env (font_file : string) (face : Face) : Env :=
  {| env_ucd := ucd_excerpt;
     env_home := "/home/user";
     env_harfbuzz := false;
     env_truetype := fun path _ =>
       if bool_decide (path = font_file) then Ok face else Raise "cannot open resource";
     env_default_face := table_face [];
     env_glob := fun _ => [];
     env_glob_rec := fun _ => [];
     env_listdir := fun _ => [];
     env_shape := fun _ _ _ => Raise "HarfBuzz not available";
     env_load_glyph := fun _ _ _ => Raise "HarfBuzz not available";
     env_nfc := fun s => s;
     env_int16 := fun _ => Ok 0;
     env_img2pdf := fun pic => Ok [pic];
     env_write_error := fun _ => None;
     env_json_chunks := fun info => ["{"; info_session_id info; "}"];
     env_dump_error := fun _ => None;
     env_upload_time := 1700000000;
     env_uuid_hex := "0123456789abcdef0123456789abcdef";
     env_session_time := 1700000000123456;
     env_created := "2023-11-14 22:13:20" |}.

(** Three font files: one whose probes all measure zero, one that measures
    the second probe character only, so that its first probe raises, and
    one that measures every probe character. *)
Definition zero_width_face : Face :=
  table_face (map (fun c => (c, 0)) test_chars).

Definition flaky_face : Face :=
  table_face [("ક", 7)].

Definition good_face : Face :=
  table_face (map (fun c => (c, 9)) test_chars).




(** Three one-page documents [a.pdf], [b.pdf], [c.pdf], and a file system
    that holds the first and the third. *)
Definition page (label : string) : Picture :=
  {| pic_width := 800; pic_height := 600; pic_pixels := label; pic_ops := [] |}.

Definition fs_a_c : FS :=
  <["a.pdf" := CPdf [page "A"]]> (<["c.pdf" := CPdf [page "C"]]> ∅).

(** A font object whose face measures nothing, so that every [textbbox]
    raises, and a four-character Gujarati name. *)
Definition unmeasured_font : Font := plain_font (table_face []).

Definition name_anil : string := "અનિલ".





(** A white 800 by 600 template stored under [uploads/t.png]. *)
Definition template_picture : Picture :=
  {| pic_width := 800; pic_height := 600; pic_pixels := "white"; pic_ops := [] |}.


(** A Gujarati request of two names, in an order that is not code order,
    on a machine whose only Gujarati-named font file, [shruti.ttf], loads
    but measures every probe at zero width. *)
Definition gujarati_request : Request :=
  {| req_template := Some ("certificate.PNG", CImage PNG template_picture);
     req_font := "gujarati";
     req_fontSize := Ok 48;
     req_yPosition := Ok 300;
     req_textColor := "#000000";
     req_names := names_gujarati_example;
     req_generatePDF := true |}.

Definition zero_font_env : Env :=
  one_font_env "C:/Windows/Fonts/shruti.ttf" zero_width_face.

Definition fs_zero_font : FS :=
  <["C:/Windows/Fonts/shruti.ttf" := CBytes "font"]> ∅.

(** A Latin request of two names with PDFs asked for, on a machine where
    [img2pdf] refuses every image: each conversion fails. *)
Definition latin_request : Request :=
  {| req_template := Some ("certificate.png", CImage PNG template_picture);
     req_font := "arial";
     req_fontSize := Ok 48;
     req_yPosition := Ok 300;
     req_textColor := "#000000";
     req_names := names_latin_example;
     req_generatePDF := true |}.

Definition no_pdf_env : Env :=
  {| env_ucd := ucd_excerpt;
     env_home := "/home/user";
     env_harfbuzz := false;
     env_truetype := fun _ _ => Raise "cannot open resource";
     env_default_face := table_face [];
     env_glob := fun _ => [];
     env_glob_rec := fun _ => [];
     env_listdir := fun _ => [];
     env_shape := fun _ _ _ => Raise "HarfBuzz not available";
     env_load_glyph := fun _ _ _ => Raise "HarfBuzz not available";
     env_nfc := fun s => s;
     env_int16 := fun _ => Ok 0;
     env_img2pdf := fun _ => Raise "unsupported image";
     env_write_error := fun _ => None;
     env_json_chunks := fun info => ["{"; info_session_id info; "}"];
     env_dump_error := fun _ => None;
     env_upload_time := 1700000000;
     env_uuid_hex := "0123456789abcdef0123456789abcdef";
     env_session_time := 1700000000123456;
     env_created := "2023-11-14 22:13:20" |}.

(** The file system of that request when the loop starts: the stored
    template and the session directories. *)
Definition fs_latin_setup : FS :=
  (make_session_dirs no_pdf_env
     (<[template_path_of no_pdf_env := CImage PNG template_picture]> ∅)
     (session_dir_of no_pdf_env)).1.

(** The file systems the loop body goes through for the first name of that
    request: after the rendering, after the copy of the JPEG, and after the
    failed PDF. *)
Definition latin_png : string :=
  os_path_join (session_dir_of no_pdf_env) (output_filename ucd_excerpt 0 "Anju Shah").

Definition latin_jpg : string := str_replace latin_png ".png" ".jpg".

Definition fs_latin_rendered : FS :=
  (generate_certificate_image no_pdf_env fs_latin_setup (template_path_of no_pdf_env)
     "Anju Shah" "arial" 48 300 "#000000" latin_png).1.



(** The machine of [no_pdf_env] with a disk that fills up: writing the
    manifest raises when one byte of the text has reached the file. *)
Definition disk_full_env : Env :=
  {| env_ucd := env_ucd no_pdf_env;
     env_home := env_home no_pdf_env;
     env_harfbuzz := env_harfbuzz no_pdf_env;
     env_truetype := env_truetype no_pdf_env;
     env_default_face := env_default_face no_pdf_env;
     env_glob := env_glob no_pdf_env;
     env_glob_rec := env_glob_rec no_pdf_env;
     env_listdir := env_listdir no_pdf_env;
     env_shape := env_shape no_pdf_env;
     env_load_glyph := env_load_glyph no_pdf_env;
     env_nfc := env_nfc no_pdf_env;
     env_int16 := env_int16 no_pdf_env;
     env_img2pdf := env_img2pdf no_pdf_env;
     env_write_error := env_write_error no_pdf_env;
     env_json_chunks := env_json_chunks no_pdf_env;
     env_dump_error := fun _ => Some (1%nat, "No space left on device");
     env_upload_time := env_upload_time no_pdf_env;
     env_uuid_hex := env_uuid_hex no_pdf_env;
     env_session_time := env_session_time no_pdf_env;
     env_created := env_created no_pdf_env |}.

(** ** The delivery routes *)

(** What a delivery route answers: a text with a status, a file sent back
    (with the name to download it under, when it is an attachment), or the
    results page with the values handed to its template. *)
Inductive Reply :=
| Text (status : Z) (body : string)
| SendFile (path : string) (download_name : option string)
| ResultsPage (info : Manifest) (session_id : string) (pdf_files : list string).

(** [os.path.join(a, b, c, ...)]: the parts joined from the left. *)
Definition os_path_join_all (a : string) (parts : list string) : string :=
  foldl os_path_join a parts.

(** [not session_id or not session_id.startswith('cert_')] *)
Definition invalid_session (session_id : string) : bool :=
  bool_decide (session_id = "") || negb (startswith session_id "cert_").

(** [serve_file(session_id, file_type, filename)] *)
Definition serve_file (fs : FS) (session_id file_type filename : string) : Reply :=
  if negb (startswith session_id "cert_") then Text 400 "Invalid session ID"
  else if negb (bool_decide (file_type ∈ ["jpg"; "pdf"])) then Text 400 "Invalid file type"
  else
    let file_path := os_path_join_all "output" [session_id; file_type; filename] in
    if negb (path_exists fs file_path) then Text 404 "File not found"
    else SendFile file_path None.

(** [download_combined()], with [request.args.get('session', '')] as its
    argument *)
Definition download_combined (fs : FS) (session_id : string) : Reply :=
  if invalid_session session_id then Text 400 "Invalid session ID"
  else
    let session_dir := os_path_join "output" session_id in
    if negb (path_exists fs session_dir) then Text 404 "Session not found or expired"
    else
      let combined_pdf_path := os_path_join session_dir "combined_certificates.pdf" in
      if negb (path_exists fs combined_pdf_path) then Text 404 "Combined PDF not found"
      else SendFile combined_pdf_path
                    (Some ("Combined_Certificates_" +:+ session_id +:+ ".pdf")).

(** [results()], with [request.args.get('session', '')] as its argument.
    [json_load] is [json.load] on the text of a file; reading a path that
    does not hold text raises. *)
Definition results (env : Env) (json_load : string -> Result Manifest) (fs : FS)
    (session_id : string) : Result Reply :=
  if invalid_session session_id then Ok (Text 400 "Invalid session ID")
  else
    let session_dir := os_path_join "output" session_id in
    if negb (path_exists fs session_dir) then Ok (Text 404 "Session not found or expired")
    else
      let info_path := os_path_join session_dir "info.json" in
      if negb (path_exists fs info_path) then Ok (Text 404 "Session info not found")
      else
        let loaded :=
          match fs !! info_path with
          | Some (CBytes text) => json_load text
          | Some CDir => Raise "Is a directory"
          | _ => Raise "codec can't decode"
          end in
        match loaded with
        | Raise msg => Raise msg
        | Ok info =>
            let pdf_dir := os_path_join session_dir "pdf" in
            let pdf_files :=
              if path_exists fs pdf_dir
              then filter (fun f => endswith f ".pdf") (env_listdir env pdf_dir)
              else [] in
            Ok (ResultsPage info session_id pdf_files)
        end.

(** ** The resolver and the batch, as invariants state them *)

(** Every path [find_gujarati_font] may try, in the order it tries them. *)
Definition gujarati_candidates (env : Env) (fs : FS) : list string :=
  filter (path_exists fs) (exact_matches env)
  ++ keyword_candidates env fs
  ++ pattern_candidates env fs
  ++ filter (path_exists fs) arial_unicode_paths.

(** A candidate that the resolver accepts: it passes verification and loads
    at the requested size. *)
Definition usable_font (env : Env) (font_size : Z) (font_path : string) : Prop :=
  check_font_supports_gujarati env font_path = Ok true
  ∧ is_ok (env_truetype env font_path font_size) = true.

(** Every path of [fs] is still a path of [fs']. *)
Definition keeps_paths (fs fs' : FS) : Prop :=
  forall p, is_Some (fs !! p) -> is_Some (fs' !! p).

(** The style names [font_map] and the Gujarati branch know. *)
Definition known_styles : list string :=
  ["arial"; "times"; "cursive"; "mongolia"; "brush"; "lucida"; "gujarati"].

(** A drawing operation of the glyph loop: a bitmap in the fill colour. *)
Definition is_glyph_bitmap (fill : RGB) (op : DrawOp) : Prop :=
  match op with
  | DrawBitmap _ _ _ fill' => fill' = fill
  | DrawText _ _ _ _ _ => False
  end.

(** [sum(pos.y_advance // 64)] over the glyphs *)
Definition y_advance_sum (glyphs : list Glyph) : Z :=
  foldr (fun g acc => g_y_advance g / 64 + acc) 0 glyphs.

(** ** Further example data *)

(** A machine with the Shruti font installed and usable. *)
Definition shruti_path : string := "C:/Windows/Fonts/shvruti.ttf".

Definition shruti_env : Env := one_font_env shruti_path good_face.

Definition fs_shruti : FS := <[shruti_path := CBytes "font"]> ∅.

(** A file system whose only PDF input is not a PDF. *)
Definition fs_junk_pdf : FS := <["a.pdf" := CBytes "junk"]> ∅.

(** A rendered certificate stored as [cert.png]. *)
Definition fs_template_named : FS := <["cert.png" := CImage PNG template_picture]> ∅.

(** What the loop promises of the entry it makes for a name, in the file
    system it leaves: the entry carries the name, its JPEG is in the [jpg]
    folder of the session, and it has a PDF only if PDFs were asked for. *)
Definition entry_of (req : Request) (session_dir : string) (fs : FS) (name : string)
    (file_info : FileInfo) : Prop :=
  file_info !! "name" = Some name
  ∧ (exists jpg_name,
       file_info !! "jpg" = Some jpg_name
       ∧ is_Some (fs !! os_path_join (os_path_join session_dir "jpg") jpg_name))
  ∧ (is_Some (file_info !! "pdf") -> req_generatePDF req = true).

(** The manifest [process] builds for a finished batch. *)
Definition manifest_of (env : Env) (req : Request) (proper_names : list string)
    (generated_files : list FileInfo) (has_combined_pdf : bool) : Manifest :=
  {| info_session_id := session_id_of env;
     info_names := proper_names;
     info_files := generated_files;
     info_has_pdf := req_generatePDF req;
     info_has_combined_pdf := has_combined_pdf;
     info_created := env_created env |}.

(** The names [process] works on, from the request. *)
Definition request_names (env : Env) (req : Request) : list string :=
  proper_names_of (env_ucd env) (req_font req) (split_names (req_names req)).

(** The Latin request of two names on a machine where PDFs can be made,
    and the file systems the two example batches end with. *)
Definition pdf_env : Env := one_font_env "good.ttf" good_face.

Definition fs_latin_final : FS := (process no_pdf_env latin_request ∅).1.

Definition fs_latin_pdf_final : FS := (process pdf_env latin_request ∅).1.

(** The manifest of a batch of one certificate. *)
Definition manifest_example : Manifest :=
  {| info_session_id := "cert_0123456789abcdef.123456";
     info_names := ["Anju Shah"];
     info_files := [<["jpg" := "cert_1_Anju_Shah.jpg"]> (<["name" := "Anju Shah"]> ∅)];
     info_has_pdf := false;
     info_has_combined_pdf := false;
     info_created := "2023-11-14 22:13:20" |}.

(** The file system the same request leaves on the machine whose disk
    fills up. *)
Definition fs_disk_full : FS := (process disk_full_env latin_request ∅).1.

(** A request whose upload is not an image. *)
Definition junk_request : Request :=
  {| req_template := Some ("certificate.png", CBytes "not an image");
     req_font := "arial";
     req_fontSize := Ok 48;
     req_yPosition := Ok 300;
     req_textColor := "#000000";
     req_names := names_latin_example;
     req_generatePDF := false |}.

(** A request whose font size field holds the text [big], and which has no
    name either. *)
Definition bad_size_request : Request :=
  {| req_template := Some ("certificate.png", CImage PNG template_picture);
     req_font := "arial";
     req_fontSize := Raise "invalid literal for int() with base 10: 'big'";
     req_yPosition := Ok 300;
     req_textColor := "#000000";
     req_names := "";
     req_generatePDF := false |}.

(** A request whose names field holds two no-break spaces and a line
    feed. *)
Definition no_names_request : Request :=
  {| req_template := Some ("certificate.png", CImage PNG template_picture);
     req_font := "arial";
     req_fontSize := Ok 48;
     req_yPosition := Ok 300;
     req_textColor := "#000000";
     req_names := "  " +:+ String "010" "";
     req_generatePDF := false |}.

(** * Properties *)

Lemma pair_of_projections {A B} (p : A * B) a b : p.1 = a -> p.2 = b -> p = (a, b).
Proof. destruct p. simpl. by intros -> ->. Qed.

(** ** UTF-8 *)

Section utf8.
Import Utf8.

Local Ltac Zify.zify_post_hook ::= Z.to_euclidean_division_equations.

Lemma code_byte n : (n < 256)%N -> code (byte n) = n.
Proof. apply N_ascii_embedding. Qed.

Lemma is_cont_cont n : is_cont (cont n) = true.
Proof.
  unfold is_cont, cont. rewrite code_byte by lia.
  apply andb_true_iff. split; [apply N.leb_le|apply N.ltb_lt]; lia.
Qed.

Lemma bits_cont n : bits (cont n) = (n mod 64)%N.
Proof. unfold bits, cont. rewrite code_byte by lia. lia. Qed.

Lemma bits_bound b : (bits b < 64)%N.
Proof. unfold bits. lia. Qed.

Lemma decode_bytes_cons b0 l1 :
  decode_bytes (b0 :: l1)
  = let n0 := code b0 in
    if (n0 <? 0x80)%N then n0 :: decode_bytes l1
    else
      match l1 with
      | b1 :: l2 =>
          if ((0xC0 <=? n0) && (n0 <? 0xE0))%N && is_cont b1
          then ((n0 - 0xC0) * 64 + bits b1)%N :: decode_bytes l2
          else
            match l2 with
            | b2 :: l3 =>
                if ((0xE0 <=? n0) && (n0 <? 0xF0))%N && is_cont b1 && is_cont b2
                then (((n0 - 0xE0) * 64 + bits b1) * 64 + bits b2)%N :: decode_bytes l3
                else
                  match l3 with
                  | b3 :: l4 =>
                      if ((0xF0 <=? n0) && (n0 <? 0xF8))%N
                         && is_cont b1 && is_cont b2 && is_cont b3
                      then ((((n0 - 0xF0) * 64 + bits b1) * 64 + bits b2) * 64 + bits b3)%N
                           :: decode_bytes l4
                      else replacement :: decode_bytes l1
                  | [] => replacement :: decode_bytes l1
                  end
            | [] => replacement :: decode_bytes l1
            end
      | [] => [replacement]
      end.
Proof. done. Qed.

Local Ltac cmp :=
  repeat match goal with
  | |- context [(?a <? ?b)%N] =>
      first [rewrite (proj2 (N.ltb_lt a b)) by lia | rewrite (proj2 (N.ltb_ge a b)) by lia]
  | |- context [(?a <=? ?b)%N] =>
      first [rewrite (proj2 (N.leb_le a b)) by lia | rewrite (proj2 (N.leb_gt a b)) by lia]
  end.

(** Decoding reads back what encoding writes, for every code point below
    2^21, which is more than Unicode has. *)
Lemma decode_encode_char c rest :
  (c < 0x200000)%N ->
  decode_bytes (encode_char c ++ rest) = c :: decode_bytes rest.
Proof.
  intros Hc. unfold encode_char.
  destruct (N.ltb_spec c 0x80); [|destruct (N.ltb_spec c 0x800); [|destruct (N.ltb_spec c 0x10000)]];
    cbn [app]; rewrite decode_bytes_cons; cbv zeta; rewrite code_byte by lia;
    rewrite ?is_cont_cont, ?bits_cont; cmp; cbn [andb]; f_equal; lia.
Qed.

Lemma decode_encode_chars l :
  Forall (fun c => (c < 0x200000)%N) l -> decode_bytes (encode_chars l) = l.
Proof.
  induction 1 as [|c l Hc _ IH]; [done|].
  unfold encode_chars in *. cbn [mbind list_bind]. fold (mbind (M:=list) encode_char l).
  by rewrite decode_encode_char, IH.
Qed.

(** Every code point a decoder gives is below 2^21. *)
Lemma decode_bytes_valid l : Forall (fun c => (c < 0x200000)%N) (decode_bytes l).
Proof.
  remember (length l) as n eqn:Hn. revert l Hn.
  induction (lt_wf n) as [n _ IH]. intros l ->.
  assert (forall l', (length l' < length l)%nat ->
            Forall (fun c => (c < 0x200000)%N) (decode_bytes l')) as Hrec.
  { intros l' Hl'. by eapply IH. }
  clear IH. destruct l as [|b0 l1]; [constructor|].
  assert (Forall (fun c => (c < 0x200000)%N) (replacement :: decode_bytes l1)) as Hrep.
  { constructor; [done|]. apply Hrec. simpl. lia. }
  rewrite decode_bytes_cons. cbv zeta.
  destruct (N.ltb_spec (code b0) 128).
  { constructor; [lia|]. apply Hrec. simpl. lia. }
  destruct l1 as [|b1 l2]; [by repeat constructor|].
  pose proof (bits_bound b1) as Hb1.
  destruct (_ && is_cont b1) eqn:H2.
  { apply andb_true_iff in H2 as [H2 _]. apply andb_true_iff in H2 as [_ H2%N.ltb_lt].
    constructor; [lia|]. apply Hrec. simpl. lia. }
  destruct l2 as [|b2 l3]; [done|].
  pose proof (bits_bound b2) as Hb2.
  destruct (_ && is_cont b2) eqn:H3.
  { apply andb_true_iff in H3 as [H3 _]. apply andb_true_iff in H3 as [H3 _].
    apply andb_true_iff in H3 as [_ H3%N.ltb_lt].
    constructor; [lia|]. apply Hrec. simpl. lia. }
  destruct l3 as [|b3 l4]; [done|].
  pose proof (bits_bound b3) as Hb3.
  destruct (_ && is_cont b3) eqn:H4; [|done].
  apply andb_true_iff in H4 as [H4 _]. apply andb_true_iff in H4 as [H4 _].
  apply andb_true_iff in H4 as [H4 _]. apply andb_true_iff in H4 as [_ H4%N.ltb_lt].
  constructor; [lia|]. apply Hrec. simpl. lia.
Qed.

Lemma encode_char_not_nil c : encode_char c ≠ [].
Proof. unfold encode_char. by repeat case_match. Qed.

End utf8.

Lemma of_to_string l : of_string (to_string l) = l.
Proof. apply list_ascii_of_string_of_list_ascii. Qed.

Lemma to_of_string s : to_string (of_string s) = s.
Proof. apply string_of_list_ascii_of_string. Qed.

Lemma decode_encode l : code_points l -> decode (encode l) = l.
Proof. intros Hl. unfold decode, encode. rewrite of_to_string. by apply decode_encode_chars. Qed.

Lemma decode_code_points s : code_points (decode s).
Proof. apply decode_bytes_valid. Qed.

Lemma encode_nil_iff l : encode l = "" ↔ l = [].
Proof.
  split; [|by intros ->]. unfold encode. destruct l as [|c l]; [done|].
  unfold Utf8.encode_chars. cbn [mbind list_bind].
  pose proof (encode_char_not_nil c). by destruct (Utf8.encode_char c).
Qed.

Lemma ascii_code_points l : Forall (fun c => is_ascii c = true) l -> code_points l.
Proof.
  intros H. eapply Forall_impl; [done|].
  intros c Hc. unfold is_ascii in Hc. apply N.ltb_lt in Hc. lia.
Qed.

(** ** Characters *)

Section characters.

Local Ltac n_bool :=
  repeat match goal with
  | |- context [(?a <=? ?b)%N] => destruct (N.leb_spec a b); try lia
  | |- context [(?a <? ?b)%N] => destruct (N.ltb_spec a b); try lia
  | |- context [(?a =? ?b)%N] => destruct (N.eqb_spec a b); try lia
  end.

(** From [!] to the last ASCII character there is no white space. *)
Lemma isspace_range c : (33 <= c)%N -> (c < 133)%N -> isspace c = false.
Proof. intros H1 H2. unfold isspace. by n_bool. Qed.

Lemma lower_char_cases c :
  lower_char c = c ∨ ((65 <= c)%N ∧ (c <= 90)%N ∧ lower_char c = (c + 32)%N).
Proof. unfold lower_char, isupper. n_bool; simpl; auto. Qed.

Lemma upper_char_cases c :
  upper_char c = c ∨ ((97 <= c)%N ∧ (c <= 122)%N ∧ upper_char c = (c - 32)%N).
Proof. unfold upper_char, islower. n_bool; simpl; auto. Qed.

Lemma isspace_lower_char c : isspace (lower_char c) = isspace c.
Proof.
  destruct (lower_char_cases c) as [->|(H1 & H2 & ->)]; [done|].
  by rewrite !isspace_range by lia.
Qed.

Lemma isspace_upper_char c : isspace (upper_char c) = isspace c.
Proof.
  destruct (upper_char_cases c) as [->|(H1 & H2 & ->)]; [done|].
  by rewrite !isspace_range by lia.
Qed.

Lemma lower_char_idem c : lower_char (lower_char c) = lower_char c.
Proof.
  destruct (lower_char_cases c) as [H|(H1 & H2 & ->)]; [by rewrite !H|].
  unfold lower_char, isupper. by n_bool.
Qed.

Lemma upper_lower_char c : upper_char (lower_char c) = upper_char c.
Proof.
  destruct (lower_char_cases c) as [->|(H1 & H2 & ->)]; [done|].
  unfold upper_char, islower. n_bool. simpl. lia.
Qed.

Lemma upper_char_idem c : upper_char (upper_char c) = upper_char c.
Proof.
  destruct (upper_char_cases c) as [H|(H1 & H2 & ->)]; [by rewrite !H|].
  unfold upper_char, islower. by n_bool.
Qed.

Lemma lower_upper_char c : lower_char (upper_char c) = lower_char c.
Proof.
  destruct (upper_char_cases c) as [->|(H1 & H2 & ->)]; [done|].
  unfold lower_char, isupper. n_bool. simpl. lia.
Qed.

Lemma is_ascii_lower_char c : is_ascii c = true -> is_ascii (lower_char c) = true.
Proof.
  unfold is_ascii. intros Hc%N.ltb_lt. apply N.ltb_lt.
  destruct (lower_char_cases c) as [->|(H1 & H2 & ->)]; lia.
Qed.

Lemma is_ascii_upper_char c : is_ascii c = true -> is_ascii (upper_char c) = true.
Proof.
  unfold is_ascii. intros Hc%N.ltb_lt. apply N.ltb_lt.
  destruct (upper_char_cases c) as [->|(H1 & H2 & ->)]; lia.
Qed.

(** A capital sigma is not an ASCII character, and not white space. *)
Lemma ascii_not_sigma c : is_ascii c = true -> (c =? 0x3A3)%N = false.
Proof. unfold is_ascii. intros Hc%N.ltb_lt. apply N.eqb_neq. lia. Qed.

Lemma space_not_sigma c : isspace c = true -> (c =? 0x3A3)%N = false.
Proof. intros Hc. apply N.eqb_neq. by intros ->. Qed.

End characters.

(** ** Fields and words *)

Section fields.
Context {A : Type} (sep : A -> bool).

Lemma fields_not_nil l : fields sep l ≠ [].
Proof. destruct l as [|c l]; simpl; [done|]. destruct (sep c); [done|]. by destruct (fields sep l). Qed.

(** A separator between two stretches splits the fields of the whole into
    the fields of the stretches. *)
Lemma fields_app_sep l c t :
  sep c = true -> fields sep (l ++ c :: t) = fields sep l ++ fields sep t.
Proof.
  intros Hc. induction l as [|a l IH]; simpl.
  - by rewrite Hc.
  - destruct (sep a); [by rewrite IH|].
    rewrite IH. pose proof (fields_not_nil l). by destruct (fields sep l).
Qed.

Lemma fields_no_sep w :
  Forall (fun c => sep c = false) w -> fields sep w = [w].
Proof.
  induction 1 as [|c w Hc _ IH]; simpl; [done|]. by rewrite Hc, IH.
Qed.

Lemma fields_all_sep t :
  Forall (fun c => sep c = true) t -> filter nonempty (fields sep t) = [].
Proof.
  induction 1 as [|c t Hc _ IH]; simpl; [done|]. by rewrite Hc.
Qed.

Lemma fields_free l :
  Forall (Forall (fun c => sep c = false)) (fields sep l).
Proof.
  induction l as [|a l IH]; simpl.
  - by repeat constructor.
  - destruct (sep a) eqn:Ha; [by constructor|].
    destruct (fields sep l) as [|w ws]; [by repeat constructor|].
    inversion IH; subst. by repeat constructor.
Qed.

(** A stretch without separator in front of a text goes to its first
    field. *)
Lemma fields_app_free x l :
  Forall (fun c => sep c = false) x ->
  fields sep (x ++ l)
  = match fields sep l with w :: ws => (x ++ w) :: ws | [] => [x] end.
Proof.
  induction 1 as [|c x Hc _ IH]; simpl.
  - pose proof (fields_not_nil l). by destruct (fields sep l).
  - rewrite Hc, IH. pose proof (fields_not_nil l). by destruct (fields sep l).
Qed.

Lemma fields_elem l c :
  c ∈ l -> sep c = false -> exists w, w ∈ fields sep l ∧ c ∈ w.
Proof.
  induction l as [|a l IH]; intros Hc Hs; [by apply elem_of_nil in Hc|].
  simpl. destruct (sep a) eqn:Ha.
  - apply elem_of_cons in Hc as [->|Hc]; [congruence|].
    destruct (IH Hc Hs) as (w & Hw & Hcw). exists w. split; [by right|done].
  - pose proof (fields_not_nil l) as Hnn.
    destruct (fields sep l) as [|w ws]; [done|].
    apply elem_of_cons in Hc as [->|Hc].
    + exists (a :: w). split; by left.
    + destruct (IH Hc Hs) as (w' & Hw' & Hcw).
      apply elem_of_cons in Hw' as [Heq|Hw'].
      * subst w'. exists (a :: w). split; [by left|by right].
      * exists w'. split; [by right|done].
Qed.

Lemma fields_elem_inv l w c : w ∈ fields sep l -> c ∈ w -> c ∈ l.
Proof.
  revert w. induction l as [|a l IH]; intros w; simpl.
  - intros ->%list_elem_of_singleton Hc. by apply elem_of_nil in Hc.
  - destruct (sep a).
    + intros [->|Hw]%elem_of_cons Hc; [by apply elem_of_nil in Hc|].
      right. by eapply IH.
    + pose proof (fields_not_nil l) as Hnn.
      destruct (fields sep l) as [|w0 ws]; [done|].
      intros [->|Hw]%elem_of_cons Hc.
      * apply elem_of_cons in Hc as [->|Hc]; [by left|].
        right. apply (IH w0); [by left|done].
      * right. apply (IH w); [by right|done].
Qed.

(** The fields, put together again with the separator, are the text. *)
Lemma join_fields c l :
  sep c = true -> (forall a, sep a = true -> a = c) -> join [c] (fields sep l) = l.
Proof.
  intros Hc Hsep. induction l as [|a l IH]; [done|].
  pose proof (fields_not_nil l) as Hnn. cbn [fields].
  destruct (fields sep l) as [|w ws]; [done|].
  destruct (sep a) eqn:Ha.
  - rewrite (Hsep a Ha).
    change (join [c] ([] :: w :: ws)) with (c :: join [c] (w :: ws)). by rewrite IH.
  - destruct ws as [|w' ws]; simpl in *; by rewrite <- IH.
Qed.

End fields.

Lemma fields_map {A} (f : A -> A) sep l :
  (forall c, sep (f c) = sep c) ->
  fields sep (map f l) = map (map f) (fields sep l).
Proof.
  intros Hf. induction l as [|a l IH]; simpl; [done|].
  rewrite Hf, IH. destruct (sep a); [done|]. by destruct (fields sep l).
Qed.

Lemma fields_Forall {A} (P : A -> Prop) sep l :
  Forall P l -> Forall (Forall P) (fields sep l).
Proof.
  intros Hl. apply Forall_forall. intros w Hw. apply Forall_forall. intros c Hc.
  rewrite Forall_forall in Hl. apply Hl. by eapply fields_elem_inv.
Qed.

Lemma filter_nonempty_map {A} (f : A -> A) (ls : list (list A)) :
  filter nonempty (map (map f) ls) = map (map f) (filter nonempty ls).
Proof.
  induction ls as [|w ls IH]; [done|].
  cbn [map]. rewrite !filter_cons. destruct w; simpl; [done|]. by rewrite <- IH.
Qed.

Lemma split_words l : Forall is_word (split l).
Proof.
  unfold split. apply Forall_forall. intros w Hw.
  apply list_elem_of_filter in Hw as [Hne Hin].
  split; [by destruct w|].
  pose proof (fields_free isspace l) as Hfree.
  rewrite Forall_forall in Hfree. by apply Hfree.
Qed.

Lemma split_Forall (P : N -> Prop) l : Forall P l -> Forall (Forall P) (split l).
Proof.
  intros Hl. unfold split. apply Forall_forall. intros w Hw.
  apply list_elem_of_filter in Hw as [_ Hin].
  pose proof (fields_Forall P isspace l Hl) as H. rewrite Forall_forall in H. by apply H.
Qed.

Lemma split_app_space l c t :
  isspace c = true -> split (l ++ c :: t) = split l ++ split t.
Proof. intros Hc. unfold split. by rewrite fields_app_sep, filter_app. Qed.

Lemma split_word w : is_word w -> split w = [w].
Proof.
  intros [Hne Hfree]. unfold split. rewrite fields_no_sep by done.
  rewrite filter_cons. by destruct w.
Qed.

Lemma split_spaces t : Forall (fun c => isspace c = true) t -> split t = [].
Proof. apply fields_all_sep. Qed.

Lemma split_nil_iff l : split l = [] ↔ Forall (fun c => isspace c = true) l.
Proof.
  split; [|apply split_spaces].
  intros Hnil. apply Forall_forall. intros c Hc.
  destruct (isspace c) eqn:Hs; [done|]. exfalso.
  destruct (fields_elem isspace l c Hc Hs) as (w & Hw & Hcw).
  assert (w ∈ split l) as Hin.
  { unfold split. apply list_elem_of_filter. split; [|done].
    destruct w; [by apply elem_of_nil in Hcw|done]. }
  rewrite Hnil in Hin. by apply elem_of_nil in Hin.
Qed.

(** ** Stripping *)

Lemma lstrip_decompose l :
  exists t, l = t ++ lstrip l ∧ Forall (fun c => isspace c = true) t.
Proof.
  induction l as [|a l (t & Hl & Ht)]; simpl.
  - by exists [].
  - destruct (isspace a) eqn:Ha.
    + exists (a :: t). split; [by rewrite Hl at 1|by constructor].
    + by exists [].
Qed.

Lemma lstrip_head l c : head (lstrip l) = Some c -> isspace c = false.
Proof.
  induction l as [|a l IH]; simpl; [done|].
  destruct (isspace a) eqn:Ha; [done|]. simpl. by intros [= <-].
Qed.

Lemma lstrip_id l : (forall c, head l = Some c -> isspace c = false) -> lstrip l = l.
Proof. destruct l as [|a l]; simpl; [done|]. intros H. by rewrite (H a). Qed.

Lemma rstrip_decompose l :
  exists t, l = rstrip l ++ t ∧ Forall (fun c => isspace c = true) t.
Proof.
  unfold rstrip. destruct (lstrip_decompose (reverse l)) as (t & Hl & Ht).
  exists (reverse t). split; [|by apply Forall_reverse].
  rewrite <- reverse_app, <- Hl. by rewrite reverse_involutive.
Qed.

Lemma rstrip_id l : (forall c, last l = Some c -> isspace c = false) -> rstrip l = l.
Proof.
  intros H. unfold rstrip. rewrite lstrip_id, reverse_involutive; [done|].
  intros c. rewrite head_reverse. apply H.
Qed.

Lemma strip_decompose l :
  exists t t', l = t ++ strip l ++ t'
               ∧ Forall (fun c => isspace c = true) t
               ∧ Forall (fun c => isspace c = true) t'.
Proof.
  destruct (lstrip_decompose l) as (t & Hl & Ht).
  destruct (rstrip_decompose (lstrip l)) as (t' & Hr & Ht').
  exists t, t'. split_and!; [|done..]. unfold strip. by rewrite <- Hr.
Qed.

Lemma strip_head l c : head (strip l) = Some c -> isspace c = false.
Proof.
  unfold strip. destruct (rstrip_decompose (lstrip l)) as (t & Hr & _).
  intros Hh. apply (lstrip_head l). rewrite Hr.
  by destruct (rstrip (lstrip l)).
Qed.

Lemma strip_last l c : last (strip l) = Some c -> isspace c = false.
Proof. unfold strip, rstrip. rewrite last_reverse. apply lstrip_head. Qed.

Lemma strip_idem l : strip (strip l) = strip l.
Proof.
  unfold strip at 1. rewrite (lstrip_id (strip l)) by apply strip_head.
  apply rstrip_id, strip_last.
Qed.

Lemma strip_elem l c : c ∈ strip l -> c ∈ l.
Proof.
  destruct (strip_decompose l) as (t & t' & Hl & _). intros Hc.
  rewrite Hl. set_solver.
Qed.

Lemma strip_Forall (P : N -> Prop) l : Forall P l -> Forall P (strip l).
Proof.
  rewrite !Forall_forall. intros H c Hc. by apply H, strip_elem.
Qed.

Lemma strip_keeps_nonspace l c : c ∈ l -> isspace c = false -> c ∈ strip l.
Proof.
  destruct (strip_decompose l) as (t & t' & Hl & Ht & Ht'). intros Hc Hns.
  rewrite Hl in Hc. rewrite Forall_forall in Ht, Ht'.
  apply elem_of_app in Hc as [Hc|Hc]; [apply Ht in Hc; congruence|].
  apply elem_of_app in Hc as [Hc|Hc]; [done|apply Ht' in Hc; congruence].
Qed.

Lemma nonempty_strip_iff l :
  nonempty (strip l) = true ↔ exists c, c ∈ l ∧ isspace c = false.
Proof.
  split.
  - intros Hne. destruct (strip l) as [|c r] eqn:Hs; [done|].
    exists c. split.
    + apply strip_elem. rewrite Hs. by left.
    + apply (strip_head l). by rewrite Hs.
  - intros (c & Hc & Hns). pose proof (strip_keeps_nonspace l c Hc Hns) as Hin.
    destruct (strip l); [by apply elem_of_nil in Hin|done].
Qed.

Lemma split_lstrip l : split (lstrip l) = split l.
Proof.
  destruct (lstrip_decompose l) as (t & Hl & Ht). rewrite Hl at 2. clear Hl.
  induction Ht as [|c t Hc _ IH]; [done|].
  change ((c :: t) ++ lstrip l) with ([] ++ c :: (t ++ lstrip l)).
  by rewrite split_app_space.
Qed.

Lemma split_rstrip l : split (rstrip l) = split l.
Proof.
  destruct (rstrip_decompose l) as (t & Hl & Ht). rewrite Hl at 2.
  destruct Ht as [|c t Hc Ht]; [by rewrite app_nil_r|].
  rewrite split_app_space by done. rewrite (split_spaces t) by done.
  by rewrite app_nil_r.
Qed.

Lemma split_strip l : split (strip l) = split l.
Proof. unfold strip. by rewrite split_rstrip, split_lstrip. Qed.

(** ** Lower case and capitals *)

Section casing.
Variable u : Ucd.
Hypothesis Hu : case_keeps_space u.

Lemma to_lower_full_space c : isspace c = true -> to_lower_full u c = [c].
Proof.
  intros Hs. unfold to_lower_full. destruct (is_ascii c).
  - f_equal. destruct (lower_char_cases c) as [->|(H1 & H2 & _)]; [done|].
    by rewrite isspace_range in Hs by lia.
  - specialize (Hu c). rewrite Hs in Hu. apply Hu.
Qed.

Lemma to_lower_full_word c : isspace c = false -> is_word (to_lower_full u c).
Proof.
  intros Hs. unfold to_lower_full. destruct (is_ascii c).
  - split; [done|]. constructor; [|done]. by rewrite isspace_lower_char.
  - specialize (Hu c). rewrite Hs in Hu. apply Hu.
Qed.

Lemma to_title_full_word c : isspace c = false -> is_word (to_title_full u c).
Proof.
  intros Hs. unfold to_title_full. destruct (is_ascii c).
  - split; [done|]. constructor; [|done]. by rewrite isspace_upper_char.
  - specialize (Hu c). rewrite Hs in Hu. apply Hu.
Qed.

Lemma lower_in_context_space before after c :
  isspace c = true -> lower_in_context u before after c = [c].
Proof.
  intros Hs. unfold lower_in_context. rewrite space_not_sigma by done.
  by apply to_lower_full_space.
Qed.

Lemma lower_in_context_word before after c :
  isspace c = false -> is_word (lower_in_context u before after c).
Proof.
  intros Hs. unfold lower_in_context. destruct (c =? 931)%N.
  - split; [done|]. by destruct (final_sigma u before after); repeat constructor.
  - by apply to_lower_full_word.
Qed.

Lemma lower_from_free before l :
  Forall (fun c => isspace c = false) l ->
  Forall (fun c => isspace c = false) (lower_from u before l).
Proof.
  intros Hl. revert before. induction Hl as [|c l Hc _ IH]; intros before; simpl; [done|].
  apply Forall_app. split; [|apply IH]. by apply lower_in_context_word.
Qed.

(** Capitalising a word gives a word. *)
Lemma capitalize_word w : is_word w -> is_word (capitalize u w).
Proof.
  intros [Hne Hfree]. destruct w as [|a w]; [done|].
  inversion Hfree; subst. simpl.
  destruct (to_title_full_word a) as [Hne' Hfree']; [done|].
  split; [by destruct (to_title_full u a)|].
  apply Forall_app. split; [done|]. by apply lower_from_free.
Qed.

(** Lower case keeps the fields between white space: the empty ones stay
    empty and the others stay non-empty. *)
Lemma fields_lower_from before l :
  Forall2 (fun w' w => w' = [] ↔ w = [])
          (fields isspace (lower_from u before l)) (fields isspace l).
Proof.
  revert before. induction l as [|c l IH]; intros before; simpl.
  - by repeat constructor.
  - specialize (IH (c :: before)). destruct (isspace c) eqn:Hs.
    + rewrite lower_in_context_space by done. simpl. rewrite Hs. by constructor.
    + destruct (lower_in_context_word before l c Hs) as [Hne Hfree].
      rewrite fields_app_free by done.
      pose proof (fields_not_nil isspace l) as Hnn.
      destruct (fields isspace l) as [|w ws]; [done|].
      inversion IH as [|w' ? ws' ? Hw Hws Heq1 Heq2]; subst.
      constructor; [|done]. split; [|done].
      intros Happ. apply app_eq_nil in Happ as [? _]. done.
Qed.

Lemma split_lower_length l : length (split (lower u l)) = length (split l).
Proof.
  unfold split, lower. pose proof (fields_lower_from [] l) as H.
  induction H as [|w' w ws' ws Hw _ IH]; [done|].
  rewrite !filter_cons. destruct w' as [|a w'], w as [|b w]; simpl.
  - done.
  - destruct Hw as [Hw _]. by specialize (Hw eq_refl).
  - destruct Hw as [_ Hw]. by specialize (Hw eq_refl).
  - by rewrite IH.
Qed.

Lemma proper_case_words name :
  Forall is_word (map (capitalize u) (split (lower u (strip name)))).
Proof.
  apply Forall_fmap. eapply Forall_impl; [apply split_words|].
  intros w Hw. by apply capitalize_word.
Qed.

End casing.

(** ** Case on ASCII text *)

Lemma ascii_name_Forall name :
  ascii_name name = true -> Forall (fun c => is_ascii c = true) (decode name).
Proof.
  unfold ascii_name. intros H. apply Forall_forall. intros c Hc.
  rewrite forallb_forall in H. apply H. by apply list_elem_of_In.
Qed.

Section ascii_case.
Variable u : Ucd.

Lemma lower_from_ascii before l :
  Forall (fun c => is_ascii c = true) l -> lower_from u before l = map lower_char l.
Proof.
  intros Hl. revert before. induction Hl as [|c l Hc _ IH]; intros before; simpl; [done|].
  unfold lower_in_context, to_lower_full. rewrite ascii_not_sigma, Hc by done.
  simpl. by rewrite IH.
Qed.

Lemma lower_ascii l :
  Forall (fun c => is_ascii c = true) l -> lower u l = map lower_char l.
Proof. apply lower_from_ascii. Qed.

Lemma map_lower_char_idem l : map lower_char (map lower_char l) = map lower_char l.
Proof. induction l as [|c l IH]; simpl; [done|]. by rewrite lower_char_idem, IH. Qed.

Lemma Forall_ascii_lower l :
  Forall (fun c => is_ascii c = true) l ->
  Forall (fun c => is_ascii c = true) (map lower_char l).
Proof.
  intros Hl. apply Forall_fmap. eapply Forall_impl; [done|].
  intros c Hc. by apply is_ascii_lower_char.
Qed.

(** On an ASCII word, capitalising the lower-cased word gives the word in
    title case. *)
Lemma capitalize_lower w :
  Forall (fun c => is_ascii c = true) w ->
  capitalize u (map lower_char w) = title_word u w.
Proof.
  intros Hw. destruct Hw as [|a w Ha Hw]; [done|]. simpl.
  unfold to_title_full. rewrite is_ascii_lower_char, Ha by done.
  rewrite upper_lower_char. f_equal.
  rewrite lower_from_ascii by by apply Forall_ascii_lower.
  rewrite map_lower_char_idem. symmetry. by apply lower_ascii.
Qed.

Lemma title_word_ascii w :
  Forall (fun c => is_ascii c = true) w ->
  Forall (fun c => is_ascii c = true) (title_word u w).
Proof.
  intros Hw. destruct Hw as [|a w Ha Hw]; [done|]. simpl.
  unfold to_title_full. rewrite Ha. simpl. constructor; [by apply is_ascii_upper_char|].
  rewrite lower_ascii by done. by apply Forall_ascii_lower.
Qed.

(** [to_proper_case] computes the title case of the specification on a
    name of ASCII characters. *)
Lemma to_proper_case_chars_title name :
  Forall (fun c => is_ascii c = true) name ->
  to_proper_case_chars u name = title_case_chars u name.
Proof.
  intros Hname. unfold to_proper_case_chars, title_case_chars.
  rewrite lower_ascii by by apply strip_Forall.
  unfold split. rewrite fields_map by apply isspace_lower_char.
  rewrite filter_nonempty_map. fold (split (strip name)). rewrite split_strip.
  f_equal. rewrite <- list_fmap_compose.
  apply Forall_fmap_ext_1. eapply Forall_impl; [by apply split_Forall|].
  intros w Hw. simpl. by apply capitalize_lower.
Qed.


End ascii_case.

(** ** Joining words with one space *)

Lemma join_cons2 (sep w w' : chars) (ws : list chars) :
  join sep (w :: w' :: ws) = w ++ sep ++ join sep (w' :: ws).
Proof. done. Qed.

Lemma join_words_head w ws :
  is_word w -> exists b t, join [32%N] (w :: ws) = b :: t ∧ isspace b = false.
Proof.
  intros [Hne Hfree]. destruct w as [|b w]; [done|]. inversion Hfree; subst.
  destruct ws as [|w' ws]; simpl; eauto.
Qed.

Lemma join_words_last ws c :
  Forall is_word ws -> last (join [32%N] ws) = Some c -> isspace c = false.
Proof.
  induction 1 as [|w ws [Hne Hfree] Hws IH]; [done|].
  destruct ws as [|w' ws].
  - simpl. intros Hl. rewrite Forall_forall in Hfree. apply Hfree.
    apply last_Some in Hl as [l' ->]. set_solver.
  - rewrite join_cons2. destruct (join_words_head w' ws) as (b & t & Hj & _).
    { by inversion Hws. }
    rewrite Hj in *. rewrite !last_app.
    destruct (last (b :: t)) eqn:Ht; [done|]. by rewrite last_cons in Ht; destruct (last t).
Qed.

Lemma single_spaced_word_app w r :
  Forall (fun c => isspace c = false) w -> single_spaced (w ++ r) = single_spaced r.
Proof. induction 1 as [|a w Ha _ IH]; simpl; [done|]. by rewrite Ha. Qed.

Lemma join_words_single_spaced ws :
  Forall is_word ws -> single_spaced (join [32%N] ws) = true.
Proof.
  induction 1 as [|w ws [Hne Hfree] Hws IH]; [done|].
  destruct ws as [|w' ws].
  - simpl. rewrite <- (app_nil_r w). by rewrite single_spaced_word_app.
  - rewrite join_cons2, single_spaced_word_app by done.
    destruct (join_words_head w' ws) as (b & t & Hj & Hb); [by inversion Hws|].
    rewrite Hj in *. simpl in *. rewrite Hb in *. by rewrite IH.
Qed.

Lemma split_join_words ws :
  Forall is_word ws -> split (join [32%N] ws) = ws.
Proof.
  induction 1 as [|w ws Hw Hws IH]; [done|].
  destruct ws as [|w' ws].
  - simpl. by apply split_word.
  - rewrite join_cons2.
    change ([32%N] ++ join [32%N] (w' :: ws)) with (32%N :: join [32%N] (w' :: ws)).
    rewrite split_app_space by done. by rewrite split_word, IH.
Qed.

Lemma strip_join_words ws :
  Forall is_word ws -> strip (join [32%N] ws) = join [32%N] ws.
Proof.
  intros Hws. unfold strip.
  assert (lstrip (join [32%N] ws) = join [32%N] ws) as ->.
  { destruct Hws as [|w ws Hw Hws]; [done|].
    destruct (join_words_head w ws Hw) as (b & t & -> & Hb). simpl. by rewrite Hb. }
  apply rstrip_id. intros c. by apply join_words_last.
Qed.

Lemma join_words_nil_iff ws :
  Forall is_word ws -> join [32%N] ws = [] ↔ ws = [].
Proof.
  intros Hws. split; [|by intros ->].
  destruct Hws as [|w ws Hw _]; [done|].
  by destruct (join_words_head w ws Hw) as (b & t & -> & _).
Qed.

(** ** Sorting *)

Lemma chars_leb_total a b : chars_leb a b = true ∨ chars_leb b a = true.
Proof.
  revert b. induction a as [|x a IH]; intros [|y b]; simpl; auto.
  destruct (N.lt_trichotomy x y) as [H|[->|H]].
  - left. by rewrite (proj2 (N.ltb_lt x y)).
  - rewrite N.ltb_irrefl, N.eqb_refl. simpl. apply IH.
  - right. by rewrite (proj2 (N.ltb_lt y x)).
Qed.

Global Instance py_le_total : Total py_le.
Proof. intros a b. apply chars_leb_total. Qed.

Lemma py_sort_sorted l : Sorted py_le (py_sort l).
Proof. apply (Sorted_merge_sort py_le). Qed.

Lemma py_sort_permutation l : py_sort l ≡ₚ l.
Proof. apply merge_sort_Permutation. Qed.

(** ** The name policy of the batch *)






(** White space in the result of [to_proper_case], on code points. *)
Lemma to_proper_case_chars_normalizes u name :
  case_keeps_space u ->
  let r := to_proper_case_chars u name in
  strip r = r
  ∧ single_spaced r = true
  ∧ split r = map (capitalize u) (split (lower u (strip name)))
  ∧ length (split r) = length (split name).
Proof.
  intros Hu r. unfold r, to_proper_case_chars.
  pose proof (proper_case_words u Hu name) as Hws.
  split_and!.
  - by apply strip_join_words.
  - by apply join_words_single_spaced.
  - by apply split_join_words.
  - rewrite split_join_words by done.
    by rewrite length_map, split_lower_length, split_strip.
Qed.

(** C9.  The title-casing operation normalises white space, for every
    name and every character database in which white space has no case and
    case mappings make no white space: the characters [r] of the result
    have no white space at either end; every white-space character among
    them is a single space followed by a character that is not white space;
    and the words of the result are the words of the stripped, lower-cased
    name, capitalised, as many as the name has. *)
Theorem to_proper_case_normalizes_whitespace (u : Ucd) (name : string) :
  case_keeps_space u ->
  let r := to_proper_case_chars u (decode name) in
  to_proper_case u name = encode r
  ∧ strip r = r
  ∧ single_spaced r = true
  ∧ split r = map (capitalize u) (split (lower u (strip (decode name))))
  ∧ length (split r) = length (split (decode name)).
Proof.
  intros Hu r. split; [done|]. by apply to_proper_case_chars_normalizes.
Qed.

(** The excerpt of the character database has the two facts. *)
Lemma ucd_excerpt_keeps_space : case_keeps_space ucd_excerpt.
Proof.
  intros c. simpl.
  repeat match goal with
         | |- context [(c =? ?k)%N] => destruct (N.eqb_spec c k) as [->|?]
         end;
    try (simpl; split; split; by repeat constructor).
  destruct (isspace c) eqn:Hs; [done|]. split; split; by repeat constructor.
Qed.

(** A name with a no-break space and an ideographic space between its two
    words, a space before them and a no-break space after them. *)
Lemma to_proper_case_normalizes_whitespace_witness :
  to_proper_case ucd_excerpt " anju 　SHAH " = "Anju Shah"
  ∧ single_spaced (decode "Anju Shah") = true.
Proof.
  destruct (to_proper_case_normalizes_whitespace ucd_excerpt " anju 　SHAH "
              ucd_excerpt_keeps_space) as (Heq & _ & Hs & _).
  split.
  - rewrite Heq. vm_compute. reflexivity.
  - vm_compute. reflexivity.
Defined.
(** ** Font verification *)

Lemma probe_loop_not_false face cs : probe_loop face cs ≠ Some false.
Proof.
  induction cs as [|c cs IH]; simpl; [done|].
  destruct (face_textbbox face c) as [[[[x0 y0] x1] y1]|]; [|done].
  by destruct (0 <? x1 - x0).
Qed.

Lemma probe_loop_true face cs :
  probe_loop face cs = Some true
  ↔ exists c b, c ∈ cs ∧ face_textbbox face c = Ok b ∧ 0 < box_width b.
Proof.
  induction cs as [|c cs IH]; simpl.
  - split; [done|]. intros (c & b & Hc & _). by apply elem_of_nil in Hc.
  - destruct (face_textbbox face c) as [[[[x0 y0] x1] y1]|msg] eqn:Hbox.
    + destruct (0 <? x1 - x0) eqn:Hw.
      * split; [|done]. intros _. exists c, (x0, y0, x1, y1).
        split_and!; [by left|done|]. simpl. lia.
      * rewrite IH. split.
        -- intros (c' & b & Hc & Hb & Hpos). exists c', b. split_and!; [by right|done..].
        -- intros (c' & b & Hc & Hb & Hpos). apply elem_of_cons in Hc as [->|Hc].
           ++ rewrite Hbox in Hb. injection Hb as <-. simpl in Hpos. lia.
           ++ by exists c', b.
    + rewrite IH. split.
      * intros (c' & b & Hc & Hb & Hpos). exists c', b. split_and!; [by right|done..].
      * intros (c' & b & Hc & Hb & Hpos). apply elem_of_cons in Hc as [->|Hc].
        -- by rewrite Hbox in Hb.
        -- by exists c', b.
Qed.

Lemma probe_loop_rejects face cs :
  probe_loop face cs ≠ Some true
  ↔ forall c, c ∈ cs ->
      match face_textbbox face c with
      | Ok b => box_width b <= 0
      | Raise _ => True
      end.
Proof.
  rewrite probe_loop_true. split.
  - intros Hnone c Hc. destruct (face_textbbox face c) as [b|] eqn:Hb; [|done].
    destruct (decide (box_width b <= 0)); [done|]. exfalso. apply Hnone.
    exists c, b. split_and!; [done..|lia].
  - intros Hall (c & b & Hc & Hb & Hpos). specialize (Hall c Hc).
    rewrite Hb in Hall. lia.
Qed.

Lemma ok_bool_decide_false (P : Prop) `{!Decision P} :
  @Ok bool (bool_decide P) = Ok false ↔ ¬ P.
Proof.
  split.
  - intros H. injection H as H. by apply bool_decide_eq_false_1 in H.
  - intros H. f_equal. by apply bool_decide_eq_false_2.
Qed.

Lemma ok_bool_decide_true (P : Prop) `{!Decision P} :
  @Ok bool (bool_decide P) = Ok true ↔ P.
Proof.
  split.
  - intros H. injection H as H. by apply bool_decide_eq_true_1 in H.
  - intros H. f_equal. by apply bool_decide_eq_true_2.
Qed.

Lemma check_font_total env font_path :
  exists verdict, check_font_supports_gujarati env font_path = Ok verdict.
Proof.
  unfold check_font_supports_gujarati.
  destruct (env_truetype env font_path 12) as [face|msg]; [|by eexists].
  destruct (probe_loop face test_chars) as [verdict|]; by eexists.
Qed.

Lemma check_font_load_error env font_path msg :
  env_truetype env font_path 12 = Raise msg ->
  check_font_supports_gujarati env font_path = Ok false.
Proof. intros H. unfold check_font_supports_gujarati. by rewrite H. Qed.

Lemma check_font_loaded env font_path face :
  env_truetype env font_path 12 = Ok face ->
  check_font_supports_gujarati env font_path
  = Ok (bool_decide (probe_loop face test_chars = Some true)).
Proof.
  intros H. unfold check_font_supports_gujarati. rewrite H.
  pose proof (probe_loop_not_false face test_chars).
  by destruct (probe_loop face test_chars) as [[]|].
Qed.

Lemma check_font_accepts env font_path :
  check_font_supports_gujarati env font_path = Ok true
  ↔ exists face, env_truetype env font_path 12 = Ok face
                 ∧ some_probe face (fun b => 0 < box_width b).
Proof.
  unfold some_probe. split.
  - destruct (env_truetype env font_path 12) as [face|msg] eqn:Hload.
    + rewrite (check_font_loaded _ _ _ Hload), ok_bool_decide_true, probe_loop_true.
      intros H. by exists face.
    + by rewrite (check_font_load_error _ _ _ Hload).
  - intros (face & Hload & Hprobe).
    by rewrite (check_font_loaded _ _ _ Hload), ok_bool_decide_true, probe_loop_true.
Qed.

(** C4.  Verification accepts a font file exactly when it loads and some
    probe character gets a box of positive width; as boxes have their left
    edge at or before their right edge, that is a box of non-zero width.  A
    font that loads and reports zero width for every probe character is
    rejected. *)
Theorem font_verification_accepts_iff (env : Env) (font_path : string) :
  (check_font_supports_gujarati env font_path = Ok true
   ↔ exists face, env_truetype env font_path 12 = Ok face
                  ∧ some_probe face (fun b => 0 < box_width b))
  ∧ (forall face,
       env_truetype env font_path 12 = Ok face -> boxes_well_formed face ->
       (check_font_supports_gujarati env font_path = Ok true
        ↔ some_probe face (fun b => box_width b ≠ 0)))
  ∧ (forall face,
       env_truetype env font_path 12 = Ok face ->
       (forall c b, c ∈ test_chars -> face_textbbox face c = Ok b -> box_width b = 0) ->
       check_font_supports_gujarati env font_path = Ok false).
Proof.
  split_and!.
  - apply check_font_accepts.
  - intros face Hload Hwf. rewrite check_font_accepts. split.
    + intros (face' & Hload' & c & b & Hc & Hb & Hpos).
      rewrite Hload in Hload'. injection Hload' as <-.
      exists c, b. split_and!; [done..|lia].
    + intros (c & b & Hc & Hb & Hne). exists face. split; [done|].
      exists c, b. split_and!; [done..|]. specialize (Hwf c b Hb). lia.
  - intros face Hload Hzero.
    rewrite (check_font_loaded _ _ _ Hload), ok_bool_decide_false, probe_loop_true.
    intros (c & b & Hc & Hb & Hpos). specialize (Hzero c b Hc Hb). lia.
Qed.

Lemma table_face_well_formed boxes :
  Forall (fun e => 0 <= e.2) boxes -> boxes_well_formed (table_face boxes).
Proof.
  intros Hall text b. simpl.
  destruct (list_find _ boxes) as [[i [t w]]|] eqn:Hfind; [|done].
  intros [= <-]. simpl. apply list_find_Some in Hfind as (Hi & _ & _).
  rewrite Forall_forall in Hall. apply list_elem_of_lookup_2 in Hi.
  specialize (Hall _ Hi). simpl in Hall. lia.
Qed.

(** A font with a glyph is accepted, a font whose probes all have zero
    width is rejected. *)
Lemma font_verification_accepts_iff_witness :
  check_font_supports_gujarati (one_font_env "good.ttf" good_face) "good.ttf" = Ok true
  ∧ check_font_supports_gujarati (one_font_env "zero.ttf" zero_width_face) "zero.ttf" = Ok false.
Proof.
  split.
  - apply (font_verification_accepts_iff (one_font_env "good.ttf" good_face) "good.ttf")
      with (face := good_face).
    + reflexivity.
    + apply table_face_well_formed. vm_compute. repeat constructor; discriminate.
    + exists "અ", (0, 0, 9, 12). split_and!; [set_solver|reflexivity|done].
  - apply (font_verification_accepts_iff (one_font_env "zero.ttf" zero_width_face) "zero.ttf")
      with (face := zero_width_face).
    + reflexivity.
    + intros c b Hc Hb. unfold test_chars in Hc.
      repeat (apply elem_of_cons in Hc as [->|Hc]; [by injection Hb as <-|]).
      by apply elem_of_nil in Hc.
Defined.

(** C10, as the code has it.  Verification always returns a boolean and
    never lets an exception out.  A font that does not load is rejected.  A
    probe that raises is passed over, so the verdict is [False] when every
    probe raises or measures no positive width, and [True] as soon as
    another probe measures a positive width. *)
Theorem font_verification_total (env : Env) (font_path : string) :
  (exists verdict, check_font_supports_gujarati env font_path = Ok verdict)
  ∧ (forall msg, env_truetype env font_path 12 = Raise msg ->
       check_font_supports_gujarati env font_path = Ok false)
  ∧ (forall face, env_truetype env font_path 12 = Ok face ->
       check_font_supports_gujarati env font_path = Ok false
       ↔ forall c, c ∈ test_chars ->
           match face_textbbox face c with
           | Ok b => box_width b <= 0
           | Raise _ => True
           end).
Proof.
  split_and!.
  - apply check_font_total.
  - apply check_font_load_error.
  - intros face Hload.
    rewrite (check_font_loaded _ _ _ Hload), ok_bool_decide_false.
    apply probe_loop_rejects.
Qed.

(** A font that does not load, and a font whose probes all raise, are both
    rejected without an exception. *)
Lemma font_verification_total_witness :
  check_font_supports_gujarati (one_font_env "good.ttf" good_face) "missing.ttf" = Ok false
  ∧ check_font_supports_gujarati (one_font_env "bare.ttf" (table_face [])) "bare.ttf" = Ok false.
Proof.
  split.
  - apply (font_verification_total (one_font_env "good.ttf" good_face) "missing.ttf")
      with (msg := "cannot open resource").
    reflexivity.
  - apply (font_verification_total (one_font_env "bare.ttf" (table_face [])) "bare.ttf")
      with (face := table_face []); [reflexivity|]. intros c _. exact I.
Defined.

(** C10, as the claim words it, fails: the first probe of [flaky_face]
    raises, and the font is accepted all the same, on its second probe. *)
Lemma probe_error_does_not_reject :
  face_textbbox flaky_face "અ" = Raise "glyph not available"
  ∧ "અ" ∈ test_chars
  ∧ check_font_supports_gujarati (one_font_env "flaky.ttf" flaky_face) "flaky.ttf" = Ok true.
Proof. split_and!; [reflexivity|set_solver|reflexivity]. Qed.

(** ** Merging *)

Lemma merge_pages_concat fs l acc :
  merge_pages fs l acc = acc ++ concat (map (pages_of fs) l).
Proof.
  revert acc. induction l as [|p l IH]; intros acc; simpl.
  - by rewrite app_nil_r.
  - unfold pages_of at 1. destruct (pdf_open fs p); rewrite IH; [|done].
    by rewrite app_assoc.
Qed.

Lemma path_exists_insert (fs : FS) path c : path_exists (<[path := c]> fs) path = true.
Proof. unfold path_exists. rewrite lookup_insert_eq. by apply bool_decide_eq_true_2. Qed.

Lemma combine_pdfs_unfold env fs pdf_files output_path :
  combine_pdfs env fs pdf_files output_path =
  match filter (path_exists fs) pdf_files with
  | [] => (fs, false)
  | _ :: _ =>
      match env_write_error env output_path with
      | Some _ => (fs, false)
      | None =>
          (<[output_path := CPdf (concat (map (pages_of fs) (filter (path_exists fs) pdf_files)))]> fs,
           true)
      end
  end.
Proof.
  unfold combine_pdfs. destruct pdf_files as [|p l]; [done|].
  destruct (filter (path_exists fs) (p :: l)) as [|q l'] eqn:Hf; [done|].
  unfold fs_write. destruct (env_write_error env output_path); [done|].
  by rewrite merge_pages_concat, path_exists_insert.
Qed.

(** C5.  [combine_pdfs] writes, as the combined document, the pages of the
    inputs that exist, in input order; an input that does not exist is left
    out without ending the merge (the result is the one for the list
    without it); and it reports failure exactly when no input exists or
    writing the combined document fails, in which case nothing is
    written. *)
Theorem merge_order_and_failure (env : Env) (fs : FS) (pdf_files : list string)
    (output_path : string) :
  let existing := filter (path_exists fs) pdf_files in
  let result := combine_pdfs env fs pdf_files output_path in
  (result.2 = false ↔ existing = [] ∨ is_Some (env_write_error env output_path))
  ∧ (result.2 = true ->
       result.1 = <[output_path := CPdf (concat (map (pages_of fs) existing))]> fs)
  ∧ (result.2 = false -> result.1 = fs)
  ∧ (forall l1 p l2,
       pdf_files = l1 ++ p :: l2 -> path_exists fs p = false ->
       result = combine_pdfs env fs (l1 ++ l2) output_path).
Proof.
  intros existing result. unfold result, existing.
  rewrite combine_pdfs_unfold. split_and!.
  - destruct (filter (path_exists fs) pdf_files) as [|q l]; simpl; [by split; auto|].
    destruct (env_write_error env output_path) as [msg|]; simpl.
    + split; [|done]. intros _. right. by eexists.
    + split; [done|]. intros [?|[? ?]]; done.
  - destruct (filter (path_exists fs) pdf_files) as [|q l]; simpl; [done|].
    by destruct (env_write_error env output_path).
  - destruct (filter (path_exists fs) pdf_files) as [|q l]; simpl; [done|].
    by destruct (env_write_error env output_path).
  - intros l1 p l2 -> Hp. rewrite combine_pdfs_unfold.
    assert (filter (path_exists fs) (l1 ++ p :: l2) = filter (path_exists fs) (l1 ++ l2)) as ->; [|done].
    rewrite !filter_app, filter_cons. rewrite decide_False; [done|].
    rewrite Hp. simpl. tauto.
Qed.

(** Merging [a.pdf], [b.pdf], [c.pdf] when [b.pdf] is absent gives the
    pages of A and C in that order. *)
Lemma merge_order_and_failure_witness :
  combine_pdfs (one_font_env "good.ttf" good_face) fs_a_c ["a.pdf"; "b.pdf"; "c.pdf"] "all.pdf"
  = (<["all.pdf" := CPdf [page "A"; page "C"]]> fs_a_c, true).
Proof.
  pose proof (merge_order_and_failure (one_font_env "good.ttf" good_face) fs_a_c
                ["a.pdf"; "b.pdf"; "c.pdf"] "all.pdf") as (_ & Hpages & _ & _).
  cbv zeta in Hpages.
  set (r := combine_pdfs _ _ _ _) in *.
  assert (r.2 = true) as Hok by (vm_compute; reflexivity).
  rewrite (surjective_pairing r), (Hpages Hok), Hok. reflexivity.
Defined.

(** ** Layout *)



Lemma center_and_draw_text_layout font name rgb center_x y tw ops ops' layout :
  center_and_draw_text font name rgb center_x y tw ops = (ops', Ok layout) ->
  text_width layout = tw
  ∧ x_position layout = (center_x - tw / 2)%Q
  ∧ ops' = ops ++ [DrawText (x_position layout) y name rgb font].
Proof.
  unfold center_and_draw_text. destruct (face_draw_error _ _); [done|].
  by intros [= <- <-].
Qed.







(** What a successful [generate_certificate_image] has done. *)
Lemma generate_certificate_image_ok env fs template_path name font_name font_size y
    text_color output_path fs' result :
  generate_certificate_image env fs template_path name font_name font_size y
    text_color output_path = (fs', Ok result) ->
  exists template rgb ops layout,
    let font := get_font_path env fs font_name font_size in
    let name' := if bool_decide (font_name = "gujarati") then env_nfc env name else name in
    let drawn := {| pic_width := pic_width template; pic_height := pic_height template;
                    pic_pixels := pic_pixels template; pic_ops := ops |} in
    image_open fs template_path = Ok template
    ∧ parse_color env text_color = Ok rgb
    ∧ draw_name env fs (pic_width template) font_name font name' font_size y rgb
        (pic_ops template) = (ops, Ok layout)
    ∧ result = (str_replace output_path ".png" ".jpg", output_path)
    ∧ fs' = <[output_path := CImage PNG drawn]>
              (<[str_replace output_path ".png" ".jpg" := CImage JPEG drawn]> fs).
Proof.
  unfold generate_certificate_image.
  destruct (image_open fs template_path) as [template|]; [|by intros [= _ ?]].
  destruct (parse_color env text_color) as [rgb|]; [|by intros [= _ ?]].
  destruct (draw_name _ _ _ _ _ _ _ _ _ _) as [ops [layout|]] eqn:Hdraw; [|by intros [= _ ?]].
  unfold fs_write.
  destruct (env_write_error env (str_replace _ _ _)); [by intros [= _ ?]|].
  destruct (env_write_error env output_path); [by intros [= _ ?]|].
  intros [= <- <-]. by exists template, rgb, ops, layout.
Qed.


(** The last-resort estimate: without HarfBuzz in play, when [textbbox]
    raises, the width is [len(name) * (font_size * factor)] with the factor
    of the style. *)
Lemma last_resort_width env fs width font_name font name font_size y rgb ops ops' layout :
  bool_decide (font_name = "gujarati") && env_harfbuzz env = false ->
  is_ok (bbox_width font name) = false ->
  draw_name env fs width font_name font name font_size y rgb ops = (ops', Ok layout) ->
  text_width layout = (inject_Z (len name) * (inject_Z font_size * width_factor font_name))%Q.
Proof.
  intros Hbranch Hbox. unfold draw_name, width_factor. rewrite Hbranch.
  destruct (bbox_width font name); [done|].
  intros (Hw & _)%center_and_draw_text_layout. rewrite Hw.
  by destruct (bool_decide (font_name = "gujarati")).
Qed.

(** The estimate when the HarfBuzz attempt has failed and [textbbox] raises
    as well: the Gujarati factor again. *)
Lemma last_resort_width_after_harfbuzz env fs width font name font_size y rgb ops ops' layout :
  env_harfbuzz env = true ->
  is_ok (harfbuzz_draw env fs font name font_size (inject_Z width / 2) y rgb ops).2 = false ->
  is_ok (bbox_width font name) = false ->
  draw_name env fs width "gujarati" font name font_size y rgb ops = (ops', Ok layout) ->
  text_width layout = (inject_Z (len name) * (inject_Z font_size * width_factor "gujarati"))%Q.
Proof.
  intros Hhb Hfail Hbox. unfold draw_name. rewrite Hhb. simpl.
  destruct (harfbuzz_draw _ _ _ _ _ _ _ _ _) as [ops1 [lay|msg]]; [done|].
  destruct (bbox_width font name); [done|].
  by intros (Hw & _)%center_and_draw_text_layout.
Qed.



(** C2, evaluated on the code.  In the last-resort path the estimate is
    [len(name) * (font_size * factor)], with the factor 0.5 for the
    Gujarati style and 0.6 for a Latin style: for a name of four characters
    at size 48 the Gujarati estimate is 96 and the Latin one 115.2, so the
    Gujarati factor is the smaller of the two, not the larger. *)
Theorem gujarati_estimate_is_narrower :
  let env := one_font_env "good.ttf" good_face in
  exists ops_g layout_g ops_l layout_l,
    draw_name env ∅ 800 "gujarati" unmeasured_font name_anil 48 300 (0, 0, 0) []
    = (ops_g, Ok layout_g)
    ∧ draw_name env ∅ 800 "arial" unmeasured_font name_anil 48 300 (0, 0, 0) []
      = (ops_l, Ok layout_l)
    ∧ text_width layout_g = (inject_Z (len name_anil) * (inject_Z 48 * width_factor "gujarati"))%Q
    ∧ text_width layout_l = (inject_Z (len name_anil) * (inject_Z 48 * width_factor "arial"))%Q
    ∧ (text_width layout_g == 96)%Q
    ∧ (text_width layout_l == 115.2)%Q
    ∧ (width_factor "gujarati" < width_factor "arial")%Q.
Proof.
  intros env. eexists _, _, _, _.
  split; [reflexivity|]. split; [reflexivity|]. split_and!; reflexivity.
Qed.

(** ** Paths of the session directory *)

Lemma of_string_app a b : of_string (a +:+ b) = of_string a ++ of_string b.
Proof. induction a as [|c a IH]; [done|]. unfold of_string in *. simpl. by rewrite IH. Qed.

Lemma of_string_inj a b : of_string a = of_string b -> a = b.
Proof. intros H. by rewrite <- (to_of_string a), <- (to_of_string b), H. Qed.

Lemma os_path_join_chars a b :
  startswith b "/" = false ->
  of_string (os_path_join a b) = of_string a ++ path_sep a ++ of_string b.
Proof.
  intros Hb. unfold os_path_join, path_sep. rewrite Hb.
  destruct (bool_decide (a = "") || endswith a "/"); by rewrite !of_string_app.
Qed.





Lemma output_filename_chars u index name :
  exists rest, of_string (output_filename u index name) = "c"%char :: rest.
Proof. unfold output_filename. rewrite of_string_app. by eexists. Qed.


Lemma starts_with_c_relative s rest :
  of_string s = "c"%char :: rest -> startswith s "/" = false.
Proof. intros H. unfold startswith. by rewrite H. Qed.




(** ** The batch *)

Lemma makedirs_only_dirs env fs path fs' r p :
  makedirs env fs path = (fs', r) -> fs' !! p = fs !! p ∨ fs' !! p = Some CDir.
Proof.
  unfold makedirs, fs_write.
  destruct (fs !! path) as [[]|]; try (intros [= <- _]; by left).
  destruct (env_write_error env path); intros [= <- _]; [by left|].
  destruct (decide (path = p)) as [->|]; [right; apply lookup_insert_eq|].
  left. by apply lookup_insert_ne.
Qed.

Lemma make_session_dirs_only_dirs env fs session_dir fs' r p :
  make_session_dirs env fs session_dir = (fs', r) ->
  fs' !! p = fs !! p ∨ fs' !! p = Some CDir.
Proof.
  unfold make_session_dirs.
  destruct (makedirs env fs session_dir) as [fs1 [[]|]] eqn:H1.
  - destruct (makedirs env fs1 _) as [fs2 [[]|]] eqn:H2.
    + intros H3.
      destruct (makedirs_only_dirs _ _ _ _ _ p H3) as [->|]; [|by right].
      destruct (makedirs_only_dirs _ _ _ _ _ p H2) as [->|]; [|by right].
      apply (makedirs_only_dirs _ _ _ _ _ p H1).
    + intros [= <- _].
      destruct (makedirs_only_dirs _ _ _ _ _ p H2) as [->|]; [|by right].
      apply (makedirs_only_dirs _ _ _ _ _ p H1).
  - intros [= <- _]. apply (makedirs_only_dirs _ _ _ _ _ p H1).
Qed.

(** The font check of [run_batch] comes before the loop. *)
Lemma run_batch_font_missing env req font_size y_position template_path proper_names fs fs1 :
  req_font req = "gujarati" ->
  make_session_dirs env fs (session_dir_of env) = (fs1, Ok tt) ->
  find_gujarati_font env fs1 12 = None ->
  run_batch env req font_size y_position template_path proper_names fs
  = (fs1, Return (Failure 400 gujarati_font_not_found)).
Proof.
  intros Hfont Hdirs Hnone. unfold run_batch. by rewrite Hdirs, Hfont, Hnone.
Qed.

(** C3.  A request that passes the checks on the upload, the two numbers
    and the names, asks for the Gujarati style, and finds no verified font
    once the session directories are made, is answered with the
    font-not-found error; the per-name loop is never entered, and the file
    system then holds the stored template and the new directories and
    nothing else new: no certificate image is written. *)
Theorem gujarati_font_missing_aborts (env : Env) (req : Request) (fs fs1 : FS)
    (filename : string) (fmt : ImageFormat) (template : Picture) (size y_position : Z) :
  req_template req = Some (filename, CImage fmt template) ->
  filename ≠ "" ->
  endswith (str_lower (env_ucd env) filename) ".png" = true ->
  env_write_error env (template_path_of env) = None ->
  req_fontSize req = Ok size ->
  req_yPosition req = Ok y_position ->
  nonempty (strip (decode (req_names req))) = true ->
  req_font req = "gujarati" ->
  make_session_dirs env (<[template_path_of env := CImage fmt template]> fs) (session_dir_of env)
  = (fs1, Ok tt) ->
  find_gujarati_font env fs1 12 = None ->
  process env req fs = (fs1, Failure 400 gujarati_font_not_found)
  ∧ forall p, p ≠ template_path_of env -> fs1 !! p = fs !! p ∨ fs1 !! p = Some CDir.
Proof.
  intros Htemplate Hname Hpng Hwrite Hsize Hy Hnames Hfont Hdirs Hnone. split.
  - unfold process. rewrite Htemplate.
    rewrite bool_decide_eq_false_2 by done. rewrite Hpng. simpl negb. cbv iota.
    unfold fs_write. rewrite Hwrite.
    unfold image_open. rewrite lookup_insert_eq.
    rewrite Hsize, Hy, Hnames. simpl negb. cbv iota.
    by rewrite (run_batch_font_missing _ _ _ _ _ _ _ _ Hfont Hdirs Hnone).
  - intros p Hp.
    destruct (make_session_dirs_only_dirs _ _ _ _ _ p Hdirs) as [->|]; [|by right].
    left. by apply lookup_insert_ne.
Qed.

(** The scenario of the specification: two Gujarati names and no font that
    passes verification. *)
Lemma gujarati_font_missing_aborts_witness :
  process zero_font_env gujarati_request fs_zero_font
  = (<[os_path_join (session_dir_of zero_font_env) "pdf" := CDir]>
       (<[os_path_join (session_dir_of zero_font_env) "jpg" := CDir]>
          (<[session_dir_of zero_font_env := CDir]>
             (<[template_path_of zero_font_env := CImage PNG template_picture]> fs_zero_font))),
     Failure 400 gujarati_font_not_found).
Proof.
  apply (gujarati_font_missing_aborts zero_font_env gujarati_request fs_zero_font _
           "certificate.PNG" PNG template_picture 48 300).
  - reflexivity.
  - discriminate.
  - reflexivity.
  - reflexivity.
  - reflexivity.
  - reflexivity.
  - reflexivity.
  - reflexivity.
  - reflexivity.
  - reflexivity.
Defined.

(** ** A PDF that cannot be made *)


(** [generate_pdf] returns [False] exactly when the file cannot be opened
    for writing or the conversion raises. *)
Lemma generate_pdf_false_iff env fs image_path pdf_path :
  (generate_pdf env fs image_path pdf_path).2 = false
  ↔ is_Some (env_write_error env pdf_path)
    ∨ (forall pic, image_open (<[pdf_path := CBytes ""]> fs) image_path = Ok pic ->
                   is_ok (env_img2pdf env pic) = false).
Proof.
  unfold generate_pdf, fs_write.
  destruct (env_write_error env pdf_path) as [msg|]; simpl.
  - split; [|done]. intros _. left. by eexists.
  - destruct (image_open _ image_path) as [pic|]; simpl.
    + destruct (env_img2pdf env pic) eqn:Hconv; simpl.
      * split; [done|]. intros [[? [=]]|H]. specialize (H pic eq_refl).
        by rewrite Hconv in H.
      * split; [|done]. intros _. right. intros pic' [= <-]. by rewrite Hconv.
    + split; [|done]. intros _. by right.
Qed.



(** ** Writing the manifest *)

Lemma string_app_nil_r s : s +:+ "" = s.
Proof. induction s as [|c s IH]; [done|]. unfold String.app in *. simpl. by rewrite IH. Qed.

Lemma string_app_assoc a b c : (a +:+ b) +:+ c = a +:+ (b +:+ c).
Proof. induction a as [|x a IH]; [done|]. unfold String.app in *. simpl. by rewrite IH. Qed.

Lemma to_string_app a b : to_string (a ++ b) = to_string a +:+ to_string b.
Proof. induction a as [|x a IH]; [done|]. unfold to_string, String.app in *. simpl. by rewrite IH. Qed.

Lemma length_of_string s : length (of_string s) = String.length s.
Proof. induction s as [|c s IH]; [done|]. unfold of_string in *. simpl. by rewrite IH. Qed.

(** The first bytes of a text are a prefix of it, and all of it exactly
    when they are as many as the text has. *)
Lemma bytes_take_prefix n s : exists rest, s = bytes_take n s +:+ rest.
Proof.
  exists (to_string (drop n (of_string s))). unfold bytes_take.
  by rewrite <- to_string_app, take_drop, to_of_string.
Qed.

Lemma bytes_take_all_iff n s : bytes_take n s = s ↔ (String.length s <= n)%nat.
Proof.
  unfold bytes_take. rewrite <- length_of_string. split.
  - intros H%(f_equal of_string). rewrite of_to_string in H.
    apply (f_equal length) in H. rewrite length_take in H. lia.
  - intros H. by rewrite take_ge, to_of_string.
Qed.

Lemma bytes_take_all s : bytes_take (String.length s) s = s.
Proof. by apply bytes_take_all_iff. Qed.

(** How the write of [process] can end. *)
Lemma write_manifest_outcome env fs info_path info :
  let run := write_manifest env fs info_path info in
  let text := json_text env info in
  exists progress,
    run.1 = manifest_write_upto progress info_path text fs
    ∧ match run.2 with
      | Ok _ =>
          env_write_error env info_path = None ∧ env_dump_error env info = None
          ∧ progress = Written (String.length text)
      | Raise msg =>
          (progress = NotOpened ∧ env_write_error env info_path = Some msg)
          ∨ (exists n, progress = Written n ∧ env_dump_error env info = Some (n, msg))
      end.
Proof.
  intros run text. unfold run, write_manifest. fold text.
  destruct (env_write_error env info_path) as [msg|].
  - exists NotOpened. split; [done|]. by left.
  - destruct (env_dump_error env info) as [[n msg]|].
    + exists (Written n). split; [done|]. right. by exists n.
    + by exists (Written (String.length text)).
Qed.

Lemma write_manifest_ok env fs info_path info fs' :
  write_manifest env fs info_path info = (fs', Ok tt) ->
  fs' = <[info_path := CBytes (json_text env info)]> fs.
Proof.
  unfold write_manifest. destruct (env_write_error env info_path); [done|].
  destruct (env_dump_error env info) as [[n msg]|]; [done|].
  intros [= <-]. simpl. by rewrite bytes_take_all.
Qed.

(** C8, as the code has it.  The manifest is written in place.  Once the
    file is opened, [info.json] exists at its final path and holds the
    first [n] bytes of the text, for the [n] the write has come to: a
    prefix of the text, which is the whole text exactly when [n] has
    reached its length.  No other path is touched at any point: there is no
    temporary file and nothing is renamed.  The write of [process] ends in
    one of these states: the file system as it was when the [open] raises,
    [n] bytes in the file when the write raises part-way, and the whole
    text when it returns. *)
Theorem manifest_written_in_place (env : Env) (fs : FS) (info_path : string)
    (info : Manifest) (n : nat) :
  let text := json_text env info in
  let interrupted := manifest_write_upto (Written n) info_path text fs in
  let run := write_manifest env fs info_path info in
  interrupted !! info_path = Some (CBytes (bytes_take n text))
  ∧ (exists rest, text = bytes_take n text +:+ rest)
  ∧ (bytes_take n text = text ↔ (String.length text <= n)%nat)
  ∧ (forall p, p ≠ info_path -> interrupted !! p = fs !! p)
  ∧ (exists progress,
       run.1 = manifest_write_upto progress info_path text fs
       ∧ match run.2 with
         | Ok _ => progress = Written (String.length text)
         | Raise msg =>
             (progress = NotOpened ∧ env_write_error env info_path = Some msg)
             ∨ (exists k, progress = Written k ∧ env_dump_error env info = Some (k, msg))
         end)
  ∧ (forall p, p ≠ info_path -> run.1 !! p = fs !! p).
Proof.
  intros text interrupted run. split_and!.
  - apply lookup_insert_eq.
  - apply bytes_take_prefix.
  - apply bytes_take_all_iff.
  - intros p Hp. by apply lookup_insert_ne.
  - destruct (write_manifest_outcome env fs info_path info) as (progress & Hfs & Hend).
    exists progress. split; [done|]. fold run in Hend.
    destruct run.2; [apply Hend|done].
  - intros p Hp.
    destruct (write_manifest_outcome env fs info_path info) as (progress & Hfs & _).
    fold run in Hfs. rewrite Hfs. destruct progress; [done|]. by apply lookup_insert_ne.
Qed.

(** C8, as the claim words it, fails.  On a machine whose disk fills up
    when one byte of the manifest is written, the batch is answered with
    500 and leaves [info.json] in the session directory holding [{], which
    is not the manifest; a later request for the results of the session
    passes the checks of [results] and has [json.load] read that text.  A
    write that stops right after the [open] leaves the file empty. *)
Lemma manifest_partial_after_crash :
  let info_path := os_path_join (session_dir_of disk_full_env) "info.json" in
  process disk_full_env latin_request ∅ = (fs_disk_full, Failure 500 "No space left on device")
  ∧ fs_disk_full !! info_path = Some (CBytes "{")
  ∧ json_text disk_full_env manifest_example = "{cert_0123456789abcdef.123456}"
  ∧ (forall json_load,
       results disk_full_env json_load fs_disk_full (session_id_of disk_full_env)
       = match json_load "{" with
         | Ok info => Ok (ResultsPage info (session_id_of disk_full_env) [])
         | Raise msg => Raise msg
         end)
  ∧ manifest_write_upto (Written 0) "info.json" (json_text disk_full_env manifest_example) ∅
      !! "info.json" = Some (CBytes "").
Proof.
  split_and!.
  - apply pair_of_projections; [reflexivity|vm_compute; reflexivity].
  - vm_compute. reflexivity.
  - reflexivity.
  - intros json_load. unfold results.
    replace (fs_disk_full !! os_path_join (os_path_join "output" (session_id_of disk_full_env))
                                          "info.json")
      with (Some (CBytes "{")) by (vm_compute; reflexivity).
    replace (invalid_session (session_id_of disk_full_env)) with false
      by (vm_compute; reflexivity).
    replace (path_exists fs_disk_full (os_path_join "output" (session_id_of disk_full_env)))
      with true by (vm_compute; reflexivity).
    replace (path_exists fs_disk_full
               (os_path_join (os_path_join "output" (session_id_of disk_full_env)) "info.json"))
      with true by (vm_compute; reflexivity).
    replace (path_exists fs_disk_full
               (os_path_join (os_path_join "output" (session_id_of disk_full_env)) "pdf"))
      with true by (vm_compute; reflexivity).
    simpl. by destruct (json_load "{").
  - reflexivity.
Qed.

(** ** The name pipeline on examples *)

(** A plain name; a name with an accent; a name with a no-break space
    between its words and an ideographic space after them; a name whose
    first letter has a lower case of two characters; and names with capital
    sigmas, at the end of a word and elsewhere. *)
Example ex_to_proper_case :
  to_proper_case ucd_excerpt "  govind   PATEL " = "Govind Patel"
  ∧ to_proper_case ucd_excerpt "éric" = "Éric"
  ∧ to_proper_case ucd_excerpt "anju shah　" = "Anju Shah"
  ∧ decode (to_proper_case ucd_excerpt "İbrahim")
    = [0x49; 0x307; 0x62; 0x72; 0x61; 0x68; 0x69; 0x6D]%N
  ∧ to_proper_case ucd_excerpt "OΣ'. ΣΣ" = "Oς'. Σς"
  ∧ to_proper_case ucd_excerpt "ΣAΣ" = "Σaς".
Proof. split_and!; vm_compute; reflexivity. Qed.

(** A line of two no-break spaces gives no name; a carriage return inside
    a line stays in the name. *)
Example ex_split_names :
  split_names ("govind patel" +:+ String "010" "  " +:+ String "010" " ANJU SHAH "
               +:+ String "010" ("a" +:+ String "013" "b"))
  = ["govind patel"; "ANJU SHAH"; "a" +:+ String "013" "b"].
Proof. vm_compute. reflexivity. Qed.

Example ex_scenario_latin :
  proper_names_of ucd_excerpt "arial" ["govind patel"; "ANJU SHAH"]
  = ["Anju Shah"; "Govind Patel"]
  ∧ py_sort ["Zoe"; "Éric"; "anna"] = ["Zoe"; "anna"; "Éric"].
Proof. split; vm_compute; reflexivity. Qed.

Example ex_utf8 :
  decode "અ é" = [0xA85; 0x20; 0xE9]%N
  ∧ encode [0x1E9E; 0x78]%N = "ẞx"
  ∧ len "અનિલ" = 4.
Proof. split_and!; vm_compute; reflexivity. Qed.

(** ** The helpers on examples *)

Example ex_os_path_join :
  os_path_join "output" "cert_ab.12" = "output/cert_ab.12"
  ∧ os_path_join "C:/Windows/Fonts/" "*.ttf" = "C:/Windows/Fonts/*.ttf"
  ∧ os_path_join "output" "/tmp/x" = "/tmp/x".
Proof. split_and!; reflexivity. Qed.

Example ex_str_replace :
  str_replace "output/s/cert_1_Anju_Shah.png" ".png" ".jpg" = "output/s/cert_1_Anju_Shah.jpg"
  ∧ str_replace "a b  c" " " "_" = "a_b__c".
Proof. split; reflexivity. Qed.

(** Letters stay in a file name, Gujarati letters too; anything else but a
    hyphen becomes an underscore, the vowel signs of Gujarati included. *)
Example ex_output_filename :
  output_filename ucd_excerpt 0 "Anju Shah" = "cert_1_Anju_Shah.png"
  ∧ output_filename ucd_excerpt 11 "O'Neil Jr." = "cert_12_O_Neil_Jr_.png"
  ∧ output_filename ucd_excerpt 2 "Éric" = "cert_3_Éric.png"
  ∧ output_filename ucd_excerpt 0 "અનિલ શાહ" = "cert_1_અન_લ_શ_હ.png".
Proof. split_and!; vm_compute; reflexivity. Qed.

Example ex_os_path_basename :
  os_path_basename "output/s/cert_1_Anju_Shah.jpg" = "cert_1_Anju_Shah.jpg".
Proof. reflexivity. Qed.

Example ex_session_dir :
  session_dir_of no_pdf_env = "output/cert_0123456789abcdef.123456"
  ∧ template_path_of no_pdf_env = "uploads/template_1700000000.png".
Proof. split; vm_compute; reflexivity. Qed.

Example ex_contains_endswith :
  contains "font" (str_lower ucd_excerpt "Cannot open FONT resource") = true
  ∧ endswith (str_lower ucd_excerpt "Certificate.PNG") ".png" = true
  ∧ endswith "photo.jpeg" ".png" = false
  ∧ contains "shruti" (str_lower ucd_excerpt "SHRUTİ.TTF") = true.
Proof. split_and!; vm_compute; reflexivity. Qed.

(** * Further properties of the code *)

(** ** Names *)

Lemma split_on_no_sep c l : Forall (fun line => c ∉ line) (split_on c l).
Proof.
  unfold split_on. eapply Forall_impl; [apply fields_free|].
  intros line Hline Hc. rewrite Forall_forall in Hline.
  specialize (Hline c Hc). by apply bool_decide_eq_false_1 in Hline.
Qed.

Lemma join_split_on c l : join [c] (split_on c l) = l.
Proof.
  apply join_fields; [by apply bool_decide_eq_true_2|].
  intros a Ha. by apply bool_decide_eq_true_1 in Ha.
Qed.

Lemma split_on_code_points c l : code_points l -> Forall code_points (split_on c l).
Proof. apply fields_Forall. Qed.

(** The names of the model decode to the names of the code. *)
Lemma split_names_decode names_text :
  map decode (split_names names_text) = split_names_chars (decode names_text).
Proof.
  unfold split_names. rewrite <- list_fmap_compose.
  rewrite <- (list_fmap_id (split_names_chars _)) at 2.
  apply Forall_fmap_ext_1. unfold split_names_chars.
  apply Forall_fmap, Forall_forall. intros line [_ Hin]%list_elem_of_filter. simpl.
  apply decode_encode, strip_Forall.
  pose proof (split_on_code_points 10%N _ (decode_code_points names_text)) as Hcp.
  rewrite Forall_forall in Hcp. by apply Hcp.
Qed.

(** Each name [process] works on is a line of the submitted text, the text
    being cut at its line feeds, with the white space at its ends taken
    off: it is not empty, has no white space at either end and no line feed
    in it.  Every line that is not blank gives a name. *)
Theorem split_names_clean (names_text : string) :
  let lines := split_on 10%N (decode names_text) in
  join [10%N] lines = decode names_text
  ∧ Forall (fun name =>
              exists line,
                line ∈ lines
                ∧ name = encode (strip line)
                ∧ decode name = strip line
                ∧ name ≠ ""
                ∧ strip (decode name) = decode name
                ∧ (forall c, head (decode name) = Some c -> isspace c = false)
                ∧ (forall c, last (decode name) = Some c -> isspace c = false)
                ∧ 10%N ∉ decode name)
           (split_names names_text)
  ∧ (forall line, line ∈ lines -> strip line ≠ [] ->
       encode (strip line) ∈ split_names names_text).
Proof.
  intros lines. split_and!.
  - apply join_split_on.
  - unfold split_names, split_names_chars. fold lines.
    apply Forall_fmap, Forall_fmap, Forall_forall. intros line Hline. simpl.
    apply list_elem_of_filter in Hline as [Hne Hin].
    assert (decode (encode (strip line)) = strip line) as Hdec.
    { apply decode_encode, strip_Forall.
      pose proof (split_on_code_points 10%N _ (decode_code_points names_text)) as Hcp.
      rewrite Forall_forall in Hcp. by apply Hcp. }
    exists line. rewrite Hdec. split_and!; [done..| |apply strip_idem|apply strip_head|apply strip_last|].
    + rewrite encode_nil_iff. by destruct (strip line).
    + intros Hc%strip_elem.
      pose proof (split_on_no_sep 10%N (decode names_text)) as Hno.
      rewrite Forall_forall in Hno. by apply (Hno line).
  - intros line Hline Hne. unfold split_names, split_names_chars. fold lines.
    apply list_elem_of_fmap. exists (strip line). split; [done|].
    apply list_elem_of_fmap. exists line. split; [done|].
    apply list_elem_of_filter. split; [|done]. by destruct (strip line).
Qed.

(** The check [if not names_text.strip()] is exact: the text passes it
    exactly when it yields at least one name. *)
Theorem names_check_is_exact (names_text : string) :
  nonempty (strip (decode names_text)) = true ↔ split_names names_text ≠ [].
Proof.
  rewrite nonempty_strip_iff. unfold split_names, split_names_chars. split.
  - intros (c & Hc & Hs).
    destruct (fields_elem (fun x => bool_decide (x = 10%N)) (decode names_text) c Hc)
      as (line & Hline & Hcl).
    { apply bool_decide_eq_false_2. by intros ->. }
    intros Hnil%fmap_nil_inv%fmap_nil_inv.
    assert (line ∈ filter (fun line => nonempty (strip line))
              (split_on 10%N (decode names_text))) as Hin.
    { apply list_elem_of_filter. split; [|done].
      apply Is_true_true, nonempty_strip_iff. by exists c. }
    rewrite Hnil in Hin. by apply elem_of_nil in Hin.
  - intros Hne.
    destruct (filter _ (split_on 10%N (decode names_text))) as [|line rest] eqn:Hf;
      [done|].
    assert (line ∈ line :: rest) as Hin by by left. rewrite <- Hf in Hin.
    apply list_elem_of_filter in Hin as [Hl Hin].
    apply Is_true_true, nonempty_strip_iff in Hl as (c & Hc & Hs).
    exists c. split; [|done]. by eapply fields_elem_inv.
Qed.

(** [to_proper_case] gives the empty string exactly on a blank name, in
    every character database in which white space has no case and case
    mappings make no white space. *)
Theorem to_proper_case_blank (u : Ucd) (name : string) :
  case_keeps_space u ->
  to_proper_case u name = "" ↔ Forall (fun c => isspace c = true) (decode name).
Proof.
  intros Hu. unfold to_proper_case, to_proper_case_chars.
  rewrite encode_nil_iff, (join_words_nil_iff _ (proper_case_words u Hu _)).
  rewrite <- split_nil_iff.
  pose proof (split_lower_length u Hu (strip (decode name))) as Hlen.
  rewrite split_strip in Hlen.
  destruct (split (lower u (strip (decode name)))), (split (decode name)); done.
Qed.

(** A name of a no-break space and an ideographic space is blank. *)
Lemma to_proper_case_blank_witness :
  to_proper_case ucd_excerpt " 　" = "".
Proof.
  apply (to_proper_case_blank ucd_excerpt " 　" ucd_excerpt_keeps_space).
  vm_compute. repeat constructor.
Defined.

Lemma join_Forall {A} (P : A -> Prop) (sep : list A) (ws : list (list A)) :
  Forall P sep -> Forall (Forall P) ws -> Forall P (join sep ws).
Proof.
  intros Hsep Hws. induction Hws as [|w ws Hw Hws IH]; [done|].
  destruct ws as [|w' ws]; [done|].
  change (join sep (w :: w' :: ws)) with (w ++ sep ++ join sep (w' :: ws)).
  by repeat (apply Forall_app; split).
Qed.

Section ascii_names.
Variable u : Ucd.

Lemma title_word_word w :
  Forall (fun c => is_ascii c = true) w -> is_word w -> is_word (title_word u w).
Proof.
  intros Ha [Hne Hfree]. destruct Ha as [|a w Ha Hw]; [done|].
  inversion Hfree; subst. simpl. unfold to_title_full. rewrite Ha.
  split; [done|]. simpl. constructor; [by rewrite isspace_upper_char|].
  rewrite lower_ascii by done. apply Forall_fmap. eapply Forall_impl; [done|].
  intros c Hc. simpl. by rewrite isspace_lower_char.
Qed.

Lemma title_word_idem w :
  Forall (fun c => is_ascii c = true) w -> title_word u (title_word u w) = title_word u w.
Proof.
  intros Ha. destruct Ha as [|a w Ha Hw]; [done|]. simpl.
  assert (to_title_full u a = [upper_char a]) as ->.
  { unfold to_title_full. by rewrite Ha. }
  simpl. unfold to_title_full. rewrite is_ascii_upper_char by done.
  rewrite upper_char_idem. rewrite (lower_ascii u w) by done.
  rewrite lower_ascii by by apply Forall_ascii_lower.
  by rewrite map_lower_char_idem.
Qed.

Lemma title_case_chars_ascii l :
  Forall (fun c => is_ascii c = true) l ->
  Forall (fun c => is_ascii c = true) (title_case_chars u l).
Proof.
  intros Hl. unfold title_case_chars. apply join_Forall; [by repeat constructor|].
  apply Forall_fmap. eapply Forall_impl; [by apply split_Forall|].
  intros w Hw. by apply title_word_ascii.
Qed.

Lemma title_case_chars_idem l :
  Forall (fun c => is_ascii c = true) l ->
  title_case_chars u (title_case_chars u l) = title_case_chars u l.
Proof.
  intros Hl. unfold title_case_chars at 1.
  assert (Forall is_word (map (title_word u) (split l))) as Hws.
  { apply Forall_fmap.
    pose proof (split_Forall _ l Hl) as Ha. pose proof (split_words l) as Hw.
    rewrite Forall_forall in Ha, Hw. apply Forall_forall. intros w Hin.
    apply title_word_word; auto. }
  unfold title_case_chars. rewrite (split_join_words _ Hws). f_equal.
  rewrite <- list_fmap_compose. apply Forall_fmap_ext_1.
  eapply Forall_impl; [by apply split_Forall|].
  intros w Hw. simpl. by apply title_word_idem.
Qed.

Lemma to_proper_case_chars_idem l :
  Forall (fun c => is_ascii c = true) l ->
  to_proper_case_chars u (to_proper_case_chars u l) = to_proper_case_chars u l.
Proof.
  intros Hl. rewrite (to_proper_case_chars_title u l Hl).
  rewrite to_proper_case_chars_title by by apply title_case_chars_ascii.
  by apply title_case_chars_idem.
Qed.

End ascii_names.

Lemma to_proper_case_idem u name :
  ascii_name name = true ->
  to_proper_case u (to_proper_case u name) = to_proper_case u name.
Proof.
  intros Hname%ascii_name_Forall. unfold to_proper_case.
  rewrite decode_encode.
  - by rewrite to_proper_case_chars_idem.
  - apply ascii_code_points. rewrite to_proper_case_chars_title by done.
    by apply title_case_chars_ascii.
Qed.

Lemma chars_leb_trans a b c :
  chars_leb a b = true -> chars_leb b c = true -> chars_leb a c = true.
Proof.
  revert b c. induction a as [|x a IH]; intros [|y b] [|z c]; simpl; try done.
  rewrite !orb_true_iff, !andb_true_iff, !N.ltb_lt, !N.eqb_eq.
  intros [Hxy|[-> Hab]] [Hyz|[-> Hbc]]; [left; lia|by left|by left|].
  right. split; [done|]. by apply (IH b).
Qed.

Lemma chars_leb_antisym a b : chars_leb a b = true -> chars_leb b a = true -> a = b.
Proof.
  revert b. induction a as [|x a IH]; intros [|y b]; simpl; try done.
  rewrite !orb_true_iff, !andb_true_iff, !N.ltb_lt, !N.eqb_eq.
  intros [Hxy|[-> Hab]] [Hyx|[Heq Hba]]; try lia. f_equal. by apply IH.
Qed.

Global Instance py_le_trans : Transitive py_le.
Proof. intros a b c. apply chars_leb_trans. Qed.

(** Two names [to_proper_case] has made from ASCII names, neither of which
    comes after the other, are the same name. *)
Lemma py_le_antisym_proper u a b :
  ascii_name a = true -> ascii_name b = true ->
  py_le (to_proper_case u a) (to_proper_case u b) ->
  py_le (to_proper_case u b) (to_proper_case u a) ->
  to_proper_case u a = to_proper_case u b.
Proof.
  intros Ha%ascii_name_Forall Hb%ascii_name_Forall. unfold py_le, to_proper_case.
  rewrite !decode_encode; cycle 1.
  - apply ascii_code_points. rewrite to_proper_case_chars_title by done.
    by apply title_case_chars_ascii.
  - apply ascii_code_points. rewrite to_proper_case_chars_title by done.
    by apply title_case_chars_ascii.
  - intros H1 H2. f_equal. by apply chars_leb_antisym.
Qed.

Lemma proper_names_idem u font names :
  forallb ascii_name names = true ->
  proper_names_of u font (proper_names_of u font names) = proper_names_of u font names.
Proof.
  intros Hnames. unfold proper_names_of. destruct (decide (font = "gujarati")); [done|].
  set (sorted := py_sort (map (to_proper_case u) names)).
  assert (forall x, x ∈ sorted ->
            exists name, ascii_name name = true ∧ x = to_proper_case u name) as Hmade.
  { intros x Hx. unfold sorted in Hx. rewrite py_sort_permutation in Hx.
    apply list_elem_of_fmap in Hx as (name & -> & Hin). exists name. split; [|done].
    rewrite forallb_forall in Hnames. by apply Hnames, list_elem_of_In. }
  assert (map (to_proper_case u) sorted = sorted) as ->.
  { rewrite <- (list_fmap_id sorted) at 2. apply list_fmap_ext. intros ? x Hx. simpl.
    apply list_elem_of_lookup_2, Hmade in Hx as (name & Hname & ->).
    by apply to_proper_case_idem. }
  apply (Sorted_unique_strong py_le); [|apply py_sort_sorted..|apply py_sort_permutation].
  intros x1 x2 Hx1 Hx2. rewrite py_sort_permutation in Hx1.
  apply Hmade in Hx1 as (a & Ha & ->). apply Hmade in Hx2 as (b & Hb & ->).
  by apply py_le_antisym_proper.
Qed.

(** The name policy is idempotent on names written in ASCII:
    [to_proper_case] changes nothing in a name it has made from such a
    name, and the processed names of a style come out of the same
    processing unchanged and in the same order.  It is not so for every
    name: [ŉ] becomes [ʼN], and [ʼN] becomes [ʼn]. *)
Theorem to_proper_case_idempotent_on_ascii :
  (forall u name,
     ascii_name name = true ->
     to_proper_case u (to_proper_case u name) = to_proper_case u name)
  ∧ (forall u font names,
       forallb ascii_name names = true ->
       proper_names_of u font (proper_names_of u font names) = proper_names_of u font names)
  ∧ to_proper_case ucd_excerpt "ŉ" = "ʼN"
  ∧ to_proper_case ucd_excerpt "ʼN" = "ʼn"
  ∧ proper_names_of ucd_excerpt "arial" ["ŉ"] = ["ʼN"]
  ∧ proper_names_of ucd_excerpt "arial" (proper_names_of ucd_excerpt "arial" ["ŉ"]) = ["ʼn"].
Proof.
  split_and!; [apply to_proper_case_idem|apply proper_names_idem|vm_compute; reflexivity..].
Qed.

(** ** The font resolver *)

Lemma first_some_app {A B} (f : A -> option B) l1 l2 :
  first_some f (l1 ++ l2)
  = match first_some f l1 with Some b => Some b | None => first_some f l2 end.
Proof. induction l1 as [|a l1 IH]; simpl; [done|]. by destruct (f a). Qed.

Lemma first_some_None {A B} (f : A -> option B) l :
  first_some f l = None ↔ Forall (fun a => f a = None) l.
Proof.
  induction l as [|a l IH]; simpl; [by split; [constructor|]|].
  destruct (f a) eqn:Ha.
  - split; [done|]. intros H. inversion H; congruence.
  - rewrite IH. split; [by constructor|]. intros H. by inversion H.
Qed.

(** [first_some] stops at the first element [f] accepts. *)
Lemma first_some_first {A B} (f : A -> option B) l b :
  first_some f l = Some b ->
  exists before a after,
    l = before ++ a :: after ∧ Forall (fun x => f x = None) before ∧ f a = Some b.
Proof.
  induction l as [|a l IH]; simpl; [done|].
  destruct (f a) eqn:Ha.
  - intros [= <-]. by exists [], a, l.
  - intros (before & a' & after & -> & Hb & Ha')%IH.
    exists (a :: before), a', after. split_and!; [done|by constructor|done].
Qed.

Lemma try_candidate_Some env font_size font_path font :
  try_candidate env font_size font_path = Some font
  ↔ check_font_supports_gujarati env font_path = Ok true
    ∧ exists face, env_truetype env font_path font_size = Ok face ∧ font = plain_font face.
Proof.
  unfold try_candidate.
  destruct (check_font_supports_gujarati env font_path) as [[]|]; [| |].
  - destruct (env_truetype env font_path font_size) as [face|].
    + split.
      * intros [= <-]. split; [done|]. by exists face.
      * intros (_ & face' & [= <-] & ->). done.
    + split; [done|]. by intros (_ & face' & [=] & _).
  - split; [done|]. by intros ([=] & _).
  - split; [done|]. by intros ([=] & _).
Qed.

Lemma try_candidate_None env font_size font_path :
  try_candidate env font_size font_path = None ↔ ¬ usable_font env font_size font_path.
Proof.
  unfold usable_font, try_candidate.
  destruct (check_font_supports_gujarati env font_path) as [[]|]; [| |].
  - destruct (env_truetype env font_path font_size); simpl.
    + split; [done|]. intros H. by destruct H.
    + split; [|done]. by intros _ [_ ?].
  - split; [|done]. by intros _ [? _].
  - split; [|done]. by intros _ [? _].
Qed.

Lemma find_gujarati_font_candidates env fs font_size :
  find_gujarati_font env fs font_size
  = first_some (try_candidate env font_size) (gujarati_candidates env fs).
Proof.
  unfold find_gujarati_font, gujarati_candidates. rewrite !first_some_app.
  destruct (first_some _ (filter _ (exact_matches env))); [done|].
  destruct (first_some _ (keyword_candidates env fs)); [done|].
  by destruct (first_some _ (pattern_candidates env fs)).
Qed.

(** The resolver is the first usable candidate of its fixed priority list:
    a font it returns comes from a path that passed verification and loads
    at the requested size, no path before it in the list is usable, and it
    reports none exactly when no candidate is usable. *)
Theorem resolver_takes_first_usable (env : Env) (fs : FS) (font_size : Z) :
  (forall font,
     find_gujarati_font env fs font_size = Some font ->
     exists before font_path after face,
       gujarati_candidates env fs = before ++ font_path :: after
       ∧ Forall (fun p => ¬ usable_font env font_size p) before
       ∧ check_font_supports_gujarati env font_path = Ok true
       ∧ env_truetype env font_path font_size = Ok face
       ∧ font = plain_font face)
  ∧ (find_gujarati_font env fs font_size = None
     ↔ Forall (fun p => ¬ usable_font env font_size p) (gujarati_candidates env fs)).
Proof.
  rewrite find_gujarati_font_candidates. split.
  - intros font (before & font_path & after & Hl & Hb & Ha)%first_some_first.
    apply try_candidate_Some in Ha as (Hcheck & face & Hload & ->).
    exists before, font_path, after, face. split_and!; [done| |done..].
    eapply Forall_impl; [done|]. intros p. by rewrite try_candidate_None.
  - rewrite first_some_None. apply Forall_iff. intros p. apply try_candidate_None.
Qed.

Lemma try_truetype_plain env fs font_size font_path font :
  try_truetype env fs font_size font_path = Some font -> font_path_attr font = None.
Proof.
  unfold try_truetype. destruct (path_exists fs font_path); [|done].
  destruct (env_truetype env font_path font_size); [|done]. by intros [= <-].
Qed.

Lemma first_some_plain {A} (f : A -> option Font) l font :
  (forall a font, f a = Some font -> font_path_attr font = None) ->
  first_some f l = Some font -> font_path_attr font = None.
Proof.
  intros Hf (before & a & after & _ & _ & Ha)%first_some_first. by eapply Hf.
Qed.

(** What [get_font_path] does once the Gujarati branch is behind it: the
    search for [font_file], the cursive fonts, then the default. *)
Lemma get_font_path_unfold env fs font_name font_size :
  font_name ≠ "gujarati" ∨ find_gujarati_font env fs font_size = None ->
  get_font_path env fs font_name font_size
  = let font_file :=
      if bool_decide (font_name = "gujarati") then Some "arial.ttf"
      else font_map_get font_name in
    match match truthy font_file with
          | Some font_file =>
              first_some
                (fun base_path => try_truetype env fs font_size (os_path_join base_path font_file))
                (filter (path_exists fs)
                        ["C:/Windows/Fonts/"; "/System/Library/Fonts/"; "/usr/share/fonts/"])
          | None => None
          end with
    | Some font => font
    | None =>
        match (if bool_decide (font_name ∈ ["cursive"; "mongolia"; "brush"; "lucida"]) then
                 first_some (try_truetype env fs font_size)
                            ["C:/Windows/Fonts/BRUSHSCI.TTF"; "C:/Windows/Fonts/BRUSHSC.ttf";
                             "C:/Windows/Fonts/SCRIPTBL.TTF"; "C:/Windows/Fonts/LHANDW.TTF"]
               else None) with
        | Some font => font
        | None =>
            match env_truetype env "arial.ttf" font_size with
            | Ok face => plain_font face
            | Raise _ => plain_font (env_default_face env)
            end
        end
    end.
Proof.
  intros H. unfold get_font_path.
  destruct (bool_decide (font_name = "gujarati")) eqn:Hg; [|done].
  apply bool_decide_eq_true_1 in Hg. destruct H as [? | ->]; done.
Qed.

(** [get_font_path] falls back to Arial: a Gujarati request with no
    Gujarati font, and any style name the program does not know, get the
    very font that ['arial'] gets. *)
Theorem get_font_path_falls_back_to_arial (env : Env) (fs : FS) (font_size : Z) :
  (find_gujarati_font env fs font_size = None ->
   get_font_path env fs "gujarati" font_size = get_font_path env fs "arial" font_size)
  ∧ (forall font_name,
       font_name ∉ known_styles ->
       get_font_path env fs font_name font_size = get_font_path env fs "arial" font_size).
Proof.
  split.
  - intros Hnone. rewrite !get_font_path_unfold by (by right) || (by left). done.
  - intros font_name Hn. unfold known_styles in Hn.
    rewrite !not_elem_of_cons in Hn. destruct Hn as (Ha & Ht & Hc & Hm & Hb & Hl & Hg & _).
    rewrite !get_font_path_unfold by (by left). unfold font_map_get.
    rewrite !(bool_decide_eq_false_2 (font_name = _)) by done.
    rewrite !(bool_decide_eq_false_2 (font_name ∈ _))
      by (rewrite !elem_of_cons, elem_of_nil; intros H;
          repeat (destruct H as [?|H]; [done|]); done).
    done.
Qed.

(** Only the Gujarati style carries a font path for HarfBuzz: when the font
    [get_font_path] returns has the [_font_path] attribute, the style is
    ['gujarati'], a Gujarati font was found, and the attribute is the
    non-empty path [get_gujarati_font_path] gives. *)
Theorem font_path_attribute_only_for_gujarati (env : Env) (fs : FS) (font_name : string)
    (font_size : Z) (font_path : string) :
  font_path_attr (get_font_path env fs font_name font_size) = Some font_path ->
  font_name = "gujarati"
  ∧ font_path ≠ ""
  ∧ get_gujarati_font_path env fs = Some font_path
  ∧ is_Some (find_gujarati_font env fs font_size).
Proof.
  destruct (decide (font_name = "gujarati")) as [->|Hne];
    [destruct (find_gujarati_font env fs font_size) as [gfont|] eqn:Hfind|].
  - unfold get_font_path. simpl. rewrite Hfind.
    destruct (get_gujarati_font_path env fs) as [p|] eqn:Hp; simpl.
    + destruct (bool_decide (p = "")) eqn:Hempty; simpl.
      * rewrite find_gujarati_font_candidates in Hfind.
        apply first_some_first in Hfind as (_ & a & _ & _ & _ & Ha).
        apply try_candidate_Some in Ha as (_ & face & _ & ->). done.
      * intros [= <-]. apply bool_decide_eq_false_1 in Hempty. by split_and!.
    + rewrite find_gujarati_font_candidates in Hfind.
      apply first_some_first in Hfind as (_ & a & _ & _ & _ & Ha).
      apply try_candidate_Some in Ha as (_ & face & _ & ->). done.
  - rewrite get_font_path_unfold by (by right). cbv zeta.
    intros Hattr. exfalso. revert Hattr.
    repeat match goal with
    | |- context [match ?x with _ => _ end] =>
        lazymatch x with
        | context [match _ with _ => _ end] => fail
        | _ => destruct x eqn:?
        end
    end; simpl; try done;
    repeat match goal with
    | H : first_some _ _ = Some _ |- _ =>
        apply first_some_plain in H; [rewrite H; done|intros ??; apply try_truetype_plain]
    end.
  - rewrite get_font_path_unfold by (by left). cbv zeta.
    intros Hattr. exfalso. revert Hattr.
    repeat match goal with
    | |- context [match ?x with _ => _ end] =>
        lazymatch x with
        | context [match _ with _ => _ end] => fail
        | _ => destruct x eqn:?
        end
    end; simpl; try done;
    repeat match goal with
    | H : first_some _ _ = Some _ |- _ =>
        apply first_some_plain in H; [rewrite H; done|intros ??; apply try_truetype_plain]
    end.
Qed.

Lemma font_path_attribute_only_for_gujarati_witness :
  "gujarati" = "gujarati"
  ∧ shruti_path ≠ ""
  ∧ get_gujarati_font_path shruti_env fs_shruti = Some shruti_path
  ∧ is_Some (find_gujarati_font shruti_env fs_shruti 48).
Proof.
  apply (font_path_attribute_only_for_gujarati shruti_env fs_shruti "gujarati" 48 shruti_path).
  reflexivity.
Defined.

(** ** Drawing *)

Lemma render_glyphs_effects env font_path font_size fill glyphs x y ops :
  exists new,
    (render_glyphs env font_path font_size fill glyphs x y ops).1 = ops ++ new
    ∧ (length new <= length glyphs)%nat
    ∧ Forall (is_glyph_bitmap fill) new
    ∧ match (render_glyphs env font_path font_size fill glyphs x y ops).2 with
      | Ok (px, py) =>
          (px == x + inject_Z (advance_sum glyphs))%Q ∧ py = y - y_advance_sum glyphs
      | Raise _ => True
      end.
Proof.
  revert x y ops. induction glyphs as [|g rest IH]; intros x y ops; simpl.
  - exists []. rewrite app_nil_r. split_and!; [done|simpl; lia|done|ring|lia].
  - assert (exists new : list DrawOp,
              ops = ops ++ new ∧ (length new <= S (length rest))%nat
              ∧ Forall (is_glyph_bitmap fill) new ∧ True) as Hstop.
    { exists []. rewrite app_nil_r. split_and!; [done|simpl; lia|done..]. }
    destruct (env_load_glyph env font_path font_size (g_codepoint g)) as [bitmap|msg];
      simpl; [|done].
    match goal with
    | |- context [match ?d with Ok ops' => _ | Raise msg => (ops, Raise msg) end] =>
        assert (match d with
                | Ok ops1 => exists first, ops1 = ops ++ first ∧ (length first <= 1)%nat
                                           ∧ Forall (is_glyph_bitmap fill) first
                | Raise _ => True
                end) as Hdrawn;
        [|destruct d as [ops1|msg]; simpl; [|done]]
    end.
    { destruct ((0 <? bm_width bitmap) && (0 <? bm_rows bitmap)).
      - destruct (bm_error bitmap); [done|].
        eexists [_]. split_and!; [done|simpl; lia|]. by repeat constructor.
      - exists []. rewrite app_nil_r. split_and!; [done|simpl; lia|done]. }
    destruct Hdrawn as (first & -> & Hl1 & Hf1).
    destruct (IH (x + inject_Z (g_x_advance g / 64))%Q (y - g_y_advance g / 64) (ops ++ first))
      as (new & Hops & Hlen & Hall & Hpen).
    exists (first ++ new). rewrite Hops, <- app_assoc.
    split_and!; [done|rewrite length_app; lia|by apply Forall_app|].
    destruct (render_glyphs _ _ _ _ rest _ _ _).2 as [[px py]|]; [|done].
    destruct Hpen as [Hx ->]. split; [|lia]. rewrite Hx, inject_Z_plus. ring.
Qed.

(** The glyph loop only adds to the picture: what was drawn before stays,
    at most one bitmap per glyph is added, each in the fill colour, also
    when a glyph fails to load half-way; and when the loop ends the pen has
    moved right by the sum of the horizontal advances and up by the sum of
    the vertical advances, each advance floor-divided by 64. *)
Theorem glyph_loop_effects (env : Env) (font_path : string) (font_size : Z) (fill : RGB)
    (glyphs : list Glyph) (x : Q) (y : Z) (ops : list DrawOp) :
  let run := render_glyphs env font_path font_size fill glyphs x y ops in
  exists new,
    run.1 = ops ++ new
    ∧ (length new <= length glyphs)%nat
    ∧ Forall (is_glyph_bitmap fill) new
    ∧ match run.2 with
      | Ok (px, py) =>
          (px == x + inject_Z (advance_sum glyphs))%Q ∧ py = y - y_advance_sum glyphs
      | Raise _ => True
      end.
Proof. apply render_glyphs_effects. Qed.



(** ** Files written by the renderer and the assembler *)

(** A rendering that succeeds writes the JPEG and the PNG, both with the
    same picture, and nothing else.  A rendering that raises has either
    written nothing, or, when it is the PNG that cannot be written, has
    left the JPEG behind. *)
Theorem generate_certificate_image_effects (env : Env) (fs : FS)
    (template_path name font_name : string) (font_size y_position : Z)
    (text_color output_path : string) :
  let run := generate_certificate_image env fs template_path name font_name font_size
               y_position text_color output_path in
  let jpg_path := str_replace output_path ".png" ".jpg" in
  match run.2 with
  | Ok result =>
      result = (jpg_path, output_path)
      ∧ exists pic,
          run.1 = <[output_path := CImage PNG pic]> (<[jpg_path := CImage JPEG pic]> fs)
  | Raise _ =>
      run.1 = fs
      ∨ (is_Some (env_write_error env output_path)
         ∧ exists pic, run.1 = <[jpg_path := CImage JPEG pic]> fs)
  end.
Proof.
  intros run jpg_path. unfold run, jpg_path, generate_certificate_image.
  destruct (image_open fs template_path) as [template|]; [|by left].
  destruct (parse_color env text_color) as [rgb|]; [|by left].
  destruct (draw_name _ _ _ _ _ _ _ _ _ _) as [ops [layout|]]; [|by left].
  unfold fs_write.
  destruct (env_write_error env (str_replace _ _ _)); [by left|].
  destruct (env_write_error env output_path) eqn:Hpng; simpl.
  - right. split; [done|]. by eexists.
  - split; [done|]. by eexists.
Qed.

(** [generate_pdf] touches no path but the PDF path.  When it returns
    [True], the image was readable and converted, and the PDF path holds
    the converted pages; converting a file onto itself always fails,
    because the file is emptied before it is read. *)
Theorem generate_pdf_effects (env : Env) (fs : FS) (image_path pdf_path : string) :
  let run := generate_pdf env fs image_path pdf_path in
  (forall p, p ≠ pdf_path -> run.1 !! p = fs !! p)
  ∧ (run.2 = true ->
       image_path ≠ pdf_path
       ∧ exists pic pages,
           image_open fs image_path = Ok pic
           ∧ env_img2pdf env pic = Ok pages
           ∧ run.1 !! pdf_path = Some (CPdf pages))
  ∧ (image_path = pdf_path -> run.2 = false).
Proof.
  intros run. unfold run, generate_pdf, fs_write.
  destruct (env_write_error env pdf_path); simpl; [by split_and!|].
  destruct (decide (image_path = pdf_path)) as [->|Hne].
  - assert (image_open (<[pdf_path := CBytes ""]> fs) pdf_path
            = Raise "cannot identify image file") as ->.
    { unfold image_open. by rewrite lookup_insert_eq. }
    simpl. split_and!; [|done..]. intros p Hp. by apply lookup_insert_ne.
  - assert (image_open (<[pdf_path := CBytes ""]> fs) image_path = image_open fs image_path)
      as ->.
    { unfold image_open. by rewrite lookup_insert_ne. }
    destruct (image_open fs image_path) as [pic|]; simpl.
    + destruct (env_img2pdf env pic) as [pages|] eqn:Hconv; simpl.
      * split_and!; [|intros _|done].
        -- intros p Hp. by rewrite !lookup_insert_ne.
        -- split; [done|]. exists pic, pages. split_and!; [done..|]. apply lookup_insert_eq.
      * split_and!; [|done..]. intros p Hp. by apply lookup_insert_ne.
    + split_and!; [|done..]. intros p Hp. by apply lookup_insert_ne.
Qed.

Lemma generate_pdf_effects_witness :
  "cert.png" ≠ "cert.pdf"
  ∧ exists pic pages,
      image_open fs_template_named "cert.png" = Ok pic
      ∧ env_img2pdf shruti_env pic = Ok pages
      ∧ (generate_pdf shruti_env fs_template_named "cert.png" "cert.pdf").1 !! "cert.pdf"
        = Some (CPdf pages).
Proof.
  apply (generate_pdf_effects shruti_env fs_template_named "cert.png" "cert.pdf").
  reflexivity.
Defined.

(** Inputs that exist but do not open as PDF are passed over without
    failing the merge: when none of the inputs opens, the merge still
    succeeds and writes a document with no page. *)
Theorem merge_of_unreadable_inputs (env : Env) (fs : FS) (pdf_files : list string)
    (output_path : string) :
  filter (path_exists fs) pdf_files ≠ [] ->
  env_write_error env output_path = None ->
  Forall (fun p => is_ok (pdf_open fs p) = false) pdf_files ->
  combine_pdfs env fs pdf_files output_path = (<[output_path := CPdf []]> fs, true).
Proof.
  intros Hex Hw Hbad. rewrite combine_pdfs_unfold, Hw.
  destruct (filter (path_exists fs) pdf_files) as [|q l] eqn:Hf; [done|].
  assert (concat (map (pages_of fs) (q :: l)) = []) as ->; [|done].
  rewrite <- Hf. clear Hf Hex.
  induction Hbad as [|p rest Hp _ IH]; [done|].
  rewrite filter_cons. destruct (decide _); [|done]. cbn [map concat].
  rewrite IH. unfold pages_of. by destruct (pdf_open fs p).
Qed.

Lemma merge_of_unreadable_inputs_witness :
  combine_pdfs shruti_env fs_junk_pdf ["a.pdf"; "b.pdf"] "all.pdf"
  = (<["all.pdf" := CPdf []]> fs_junk_pdf, true).
Proof.
  apply merge_of_unreadable_inputs.
  - discriminate.
  - reflexivity.
  - repeat constructor.
Defined.

(** ** The loop over the names *)

Lemma keeps_paths_refl fs : keeps_paths fs fs.
Proof. by intros p. Qed.

Lemma keeps_paths_trans fs1 fs2 fs3 :
  keeps_paths fs1 fs2 -> keeps_paths fs2 fs3 -> keeps_paths fs1 fs3.
Proof. intros H1 H2 p Hp. by apply H2, H1. Qed.

Lemma keeps_paths_insert (fs : FS) path c : keeps_paths fs (<[path := c]> fs).
Proof.
  intros p Hp. destruct (decide (path = p)) as [->|Hne].
  - rewrite lookup_insert_eq. by eexists.
  - by rewrite lookup_insert_ne.
Qed.

Lemma fs_write_keeps env fs path c : keeps_paths fs (fs_write env fs path c).1.
Proof.
  unfold fs_write. destruct (env_write_error env path); simpl;
    [apply keeps_paths_refl|apply keeps_paths_insert].
Qed.

Lemma fs_write_ok env fs path c fs' :
  fs_write env fs path c = (fs', Ok tt) -> fs' = <[path := c]> fs.
Proof. unfold fs_write. destruct (env_write_error env path); [done|]. by intros [= <-]. Qed.

Lemma makedirs_keeps env fs path : keeps_paths fs (makedirs env fs path).1.
Proof.
  unfold makedirs. destruct (fs !! path) as [[]|]; simpl; try apply keeps_paths_refl.
  apply fs_write_keeps.
Qed.

Lemma makedirs_ok env fs path fs' :
  makedirs env fs path = (fs', Ok tt) -> is_Some (fs' !! path).
Proof.
  unfold makedirs. destruct (fs !! path) as [[]|] eqn:Hp; try done.
  - intros [= <-]. by rewrite Hp.
  - intros ->%fs_write_ok. rewrite lookup_insert_eq. by eexists.
Qed.

Lemma make_session_dirs_ok env fs session_dir fs' :
  make_session_dirs env fs session_dir = (fs', Ok tt) ->
  keeps_paths fs fs'
  ∧ is_Some (fs' !! session_dir)
  ∧ is_Some (fs' !! os_path_join session_dir "jpg")
  ∧ is_Some (fs' !! os_path_join session_dir "pdf").
Proof.
  unfold make_session_dirs.
  destruct (makedirs env fs session_dir) as [fs1 [[]|]] eqn:H1; [|done].
  destruct (makedirs env fs1 (os_path_join session_dir "jpg")) as [fs2 [[]|]] eqn:H2; [|done].
  intros H3.
  pose proof (makedirs_keeps env fs session_dir) as K1. rewrite H1 in K1.
  pose proof (makedirs_keeps env fs1 (os_path_join session_dir "jpg")) as K2. rewrite H2 in K2.
  pose proof (makedirs_keeps env fs2 (os_path_join session_dir "pdf")) as K3. rewrite H3 in K3.
  simpl in *. split_and!.
  - eauto using keeps_paths_trans.
  - apply K3, K2. by eapply makedirs_ok.
  - apply K3. by eapply makedirs_ok.
  - by eapply makedirs_ok.
Qed.

Lemma generate_certificate_image_keeps env fs template_path name font_name font_size y
    text_color output_path :
  keeps_paths fs
    (generate_certificate_image env fs template_path name font_name font_size y
       text_color output_path).1.
Proof.
  unfold generate_certificate_image.
  destruct (image_open fs template_path); [|apply keeps_paths_refl].
  destruct (parse_color env text_color); [|apply keeps_paths_refl].
  destruct (draw_name _ _ _ _ _ _ _ _ _ _) as [ops [layout|]]; [|apply keeps_paths_refl].
  match goal with |- context [fs_write env fs ?p ?c] =>
    pose proof (fs_write_keeps env fs p c) as K1;
    destruct (fs_write env fs p c) as [fs1 [[]|]] end; [|done].
  match goal with |- context [fs_write env fs1 ?p ?c] =>
    pose proof (fs_write_keeps env fs1 p c) as K2;
    destruct (fs_write env fs1 p c) as [fs2 [[]|]] end;
    simpl in *; eauto using keeps_paths_trans.
Qed.

Lemma shutil_copy_keeps env fs src dst : keeps_paths fs (shutil_copy env fs src dst).1.
Proof.
  unfold shutil_copy. destruct (fs !! src); [apply fs_write_keeps|apply keeps_paths_refl].
Qed.

Lemma shutil_copy_ok env fs src dst fs' :
  shutil_copy env fs src dst = (fs', Ok tt) -> is_Some (fs' !! dst).
Proof.
  unfold shutil_copy. destruct (fs !! src); [|done].
  intros ->%fs_write_ok. rewrite lookup_insert_eq. by eexists.
Qed.

Lemma generate_pdf_keeps env fs image_path pdf_path :
  keeps_paths fs (generate_pdf env fs image_path pdf_path).1.
Proof.
  unfold generate_pdf.
  pose proof (fs_write_keeps env fs pdf_path (CBytes "")) as K1.
  destruct (fs_write env fs pdf_path (CBytes "")) as [fs1 [[]|]]; [|done].
  destruct (match image_open fs1 image_path with Ok pic => _ | Raise msg => _ end); [|done].
  simpl in *. eapply keeps_paths_trans; [done|apply keeps_paths_insert].
Qed.

Lemma combine_pdfs_keeps env fs pdf_files output_path :
  keeps_paths fs (combine_pdfs env fs pdf_files output_path).1.
Proof.
  rewrite combine_pdfs_unfold. destruct (filter _ pdf_files); [apply keeps_paths_refl|].
  destruct (env_write_error env output_path); [apply keeps_paths_refl|apply keeps_paths_insert].
Qed.

(** What one turn of the loop leaves behind. *)
Lemma process_name_outcome env req font_size y_position template_path session_dir index name fs :
  let run := process_name env req font_size y_position template_path session_dir index name fs in
  keeps_paths fs run.1
  ∧ match run.2 with
    | Continue file_info => entry_of req session_dir run.1 name file_info
    | Return r => req_font req = "gujarati" ∧ exists msg, r = Failure 500 msg
    | Throw _ => True
    end.
Proof.
  intros run. unfold run, process_name.
  match goal with |- context [generate_certificate_image ?e ?f ?t ?n ?fn ?sz ?y ?c ?o] =>
    pose proof (generate_certificate_image_keeps e f t n fn sz y c o) as K1;
    destruct (generate_certificate_image e f t n fn sz y c o)
      as [fs1 [[result_jpg result_png]|error_msg]] end; simpl in K1.
  - match goal with |- context [shutil_copy env fs1 ?a ?b] =>
      pose proof (shutil_copy_keeps env fs1 a b) as K2;
      pose proof (shutil_copy_ok env fs1 a b) as Hcopy;
      destruct (shutil_copy env fs1 a b) as [fs2 [[]|]] end; simpl in K2; [|split; [|done]].
    2: by eapply keeps_paths_trans.
    specialize (Hcopy fs2 eq_refl).
    destruct (req_generatePDF req) eqn:Hflag.
    + match goal with |- context [generate_pdf env fs2 ?a ?b] =>
        pose proof (generate_pdf_keeps env fs2 a b) as K3;
        destruct (generate_pdf env fs2 a b) as [fs3 pdf_generated] end; simpl in K3.
      destruct (pdf_generated && path_exists fs3 _); simpl.
      * split; [eauto using keeps_paths_trans|]. split_and!; [done| |done].
        eexists. split; [done|]. by apply K3.
      * split; [eauto using keeps_paths_trans|]. split_and!; [done| |by intros [? ?]].
        eexists. split; [done|]. by apply K3.
    + simpl. split; [eauto using keeps_paths_trans|]. split_and!; [done| |by intros [? ?]].
      by eexists.
  - destruct (bool_decide (req_font req = "gujarati")) eqn:Hg; simpl.
    + destruct (contains "font" (str_lower _ error_msg)); simpl; [|done].
      split; [done|]. split; [by apply bool_decide_eq_true_1 in Hg|by eexists].
    + done.
Qed.

Lemma entry_of_keeps req session_dir fs fs' name file_info :
  keeps_paths fs fs' -> entry_of req session_dir fs name file_info ->
  entry_of req session_dir fs' name file_info.
Proof.
  intros K (Hn & (j & Hj & Hex) & Hpdf). split_and!; [done| |done].
  exists j. split; [done|]. by apply K.
Qed.

Lemma process_names_outcome env req font_size y_position template_path session_dir names :
  forall index generated_files fs,
    let run := process_names env req font_size y_position template_path session_dir index names
                 generated_files fs in
    keeps_paths fs run.1
    ∧ match run.2 with
      | Continue files =>
          exists new,
            files = generated_files ++ new
            ∧ Forall2 (entry_of req session_dir run.1) names new
      | Return r => req_font req = "gujarati" ∧ exists msg, r = Failure 500 msg
      | Throw _ => True
      end.
Proof.
  induction names as [|name rest IH]; intros index generated_files fs; simpl.
  - split; [apply keeps_paths_refl|]. exists []. by rewrite app_nil_r.
  - pose proof (process_name_outcome env req font_size y_position template_path session_dir
                  index name fs) as [K1 Hentry].
    destruct (process_name env req font_size y_position template_path session_dir index name fs)
      as [fs1 [file_info|r|msg]]; simpl in *; [|done..].
    specialize (IH (S index) (generated_files ++ [file_info]) fs1) as [K2 Hrest].
    destruct (process_names env req font_size y_position template_path session_dir (S index) rest
                (generated_files ++ [file_info]) fs1) as [fs2 [files|r|msg]]; simpl in *.
    + split; [eauto using keeps_paths_trans|].
      destruct Hrest as (new & -> & Hall). exists (file_info :: new).
      rewrite <- app_assoc. split; [done|]. constructor; [|done].
      by eapply entry_of_keeps.
    + split; [eauto using keeps_paths_trans|done].
    + split; [eauto using keeps_paths_trans|done].
Qed.

(** When the loop over the names runs to its end, it has made exactly one
    entry per name, in the order of the names; each entry carries its name
    and a JPEG that lies in the [jpg] folder of the session, and has a PDF
    only if PDFs were asked for.  However the loop ends, it removes no file;
    and when it answers itself, the answer is a 500 for the Gujarati
    style. *)
Theorem loop_makes_one_entry_per_name (env : Env) (req : Request) (font_size y_position : Z)
    (template_path session_dir : string) (names : list string) (fs : FS) :
  let run := process_names env req font_size y_position template_path session_dir 0 names [] fs in
  keeps_paths fs run.1
  ∧ match run.2 with
    | Continue files => Forall2 (entry_of req session_dir run.1) names files
    | Return r => req_font req = "gujarati" ∧ exists msg, r = Failure 500 msg
    | Throw _ => True
    end.
Proof.
  intros run.
  pose proof (process_names_outcome env req font_size y_position template_path session_dir
                names 0 [] fs)
    as [K H].
  fold run in K, H. split; [done|].
  destruct run.2 as [files|r|msg]; [|done..].
  by destruct H as (new & -> & Hall).
Qed.

(** ** A finished batch *)

Lemma combine_pdfs_true env fs pdf_files output_path :
  (combine_pdfs env fs pdf_files output_path).2 = true ->
  is_Some ((combine_pdfs env fs pdf_files output_path).1 !! output_path).
Proof.
  rewrite combine_pdfs_unfold. destruct (filter _ pdf_files); [done|].
  destruct (env_write_error env output_path); [done|]. simpl. intros _.
  rewrite lookup_insert_eq. by eexists.
Qed.

(** How [run_batch] can end. *)
Lemma run_batch_outcome env req font_size y_position template_path proper_names fs :
  let run := run_batch env req font_size y_position template_path proper_names fs in
  match run.2 with
  | Continue r =>
      exists fs_setup fs_loop fs_pdf files has_combined,
        make_session_dirs env fs (session_dir_of env) = (fs_setup, Ok tt)
        ∧ process_names env req font_size y_position template_path (session_dir_of env) 0
            proper_names [] fs_setup = (fs_loop, Continue files)
        ∧ keeps_paths fs_loop fs_pdf
        ∧ (has_combined = true ->
             req_generatePDF req = true
             ∧ is_Some (fs_pdf !! os_path_join (session_dir_of env) "combined_certificates.pdf"))
        ∧ run.1 = <[os_path_join (session_dir_of env) "info.json" :=
                      CBytes (json_text env
                                (manifest_of env req proper_names files has_combined))]> fs_pdf
        ∧ r = Success (session_id_of env) (length files) (req_generatePDF req)
  | Return r => exists status msg, r = Failure status msg
  | Throw _ => True
  end.
Proof.
  intros run. unfold run, run_batch.
  destruct (make_session_dirs env fs (session_dir_of env)) as [fs1 [[]|]] eqn:Hdirs; [|done].
  destruct (if bool_decide (req_font req = "gujarati") then _ else false); [by eexists _, _|].
  pose proof (process_names_outcome env req font_size y_position template_path
                (session_dir_of env) proper_names 0 [] fs1) as [_ Hloop].
  destruct (process_names env req font_size y_position template_path (session_dir_of env) 0
              proper_names [] fs1) as [fs2 [files|r|msg]] eqn:Hrun; simpl in Hloop; [| |done].
  2: { simpl. destruct Hloop as (_ & msg & ->). by eexists _, _. }
  set (combined := if req_generatePDF req then _ else (fs2, false)).
  assert (keeps_paths fs2 combined.1
          ∧ (combined.2 = true ->
               req_generatePDF req = true
               ∧ is_Some (combined.1 !! os_path_join (session_dir_of env)
                                          "combined_certificates.pdf"))) as [K Hc].
  { unfold combined. destruct (req_generatePDF req); [|by split; [apply keeps_paths_refl|]].
    destruct (pdf_files_of fs2 _ files) as [|pdf rest];
      [by split; [apply keeps_paths_refl|]|].
    split; [apply combine_pdfs_keeps|]. intros Ht. split; [done|]. by apply combine_pdfs_true. }
  destruct combined as [fs3 has_combined]. simpl in K, Hc.
  destruct (write_manifest env fs3 _ _) as [fs4 [[]|]] eqn:Hwrite; [|done].
  apply write_manifest_ok in Hwrite as ->. simpl.
  by exists fs1, fs2, fs3, files, has_combined.
Qed.

Lemma proper_names_length u font names :
  length (proper_names_of u font names) = length names.
Proof.
  unfold proper_names_of. destruct (decide _); [done|].
  by rewrite py_sort_permutation, length_map.
Qed.

(** Everything a successful [process] guarantees. *)
Lemma process_success_inv env req fs fs' session_id count has_pdf :
  process env req fs = (fs', Success session_id count has_pdf) ->
  exists fs_setup fs_loop fs_pdf files has_combined size y_position,
    keeps_paths fs fs_setup
    ∧ is_Some (fs_setup !! session_dir_of env)
    ∧ is_Some (fs_setup !! os_path_join (session_dir_of env) "pdf")
    ∧ req_fontSize req = Ok size
    ∧ req_yPosition req = Ok y_position
    ∧ process_names env req (Z.max 10 size) y_position (template_path_of env)
        (session_dir_of env) 0 (request_names env req) [] fs_setup
      = (fs_loop, Continue files)
    ∧ keeps_paths fs_loop fs_pdf
    ∧ (has_combined = true ->
         req_generatePDF req = true
         ∧ is_Some (fs_pdf !! os_path_join (session_dir_of env) "combined_certificates.pdf"))
    ∧ fs' = <[os_path_join (session_dir_of env) "info.json" :=
                CBytes (json_text env
                          (manifest_of env req (request_names env req) files has_combined))]> fs_pdf
    ∧ session_id = session_id_of env
    ∧ count = length files
    ∧ has_pdf = req_generatePDF req.
Proof.
  unfold process.
  destruct (req_template req) as [[filename uploaded]|]; [|done].
  destruct (bool_decide (filename = "")); [done|].
  destruct (negb (endswith (str_lower _ filename) ".png")); [done|].
  pose proof (fs_write_keeps env fs (template_path_of env) uploaded) as K0.
  destruct (fs_write env fs (template_path_of env) uploaded) as [fs1 [[]|]]; [|done].
  simpl in K0.
  destruct (image_open fs1 (template_path_of env)); [|done].
  destruct (req_fontSize req) as [size|]; [|done].
  destruct (req_yPosition req) as [y_position|]; [|done].
  destruct (negb (nonempty (strip (decode (req_names req))))); [done|].
  fold (request_names env req).
  pose proof (run_batch_outcome env req (Z.max 10 size) y_position (template_path_of env)
                (request_names env req) fs1) as Hrun.
  destruct (run_batch env req (Z.max 10 size) y_position (template_path_of env)
              (request_names env req) fs1) as [fs2 [r|r|msg]]; simpl in Hrun; [| |done].
  - destruct Hrun as (fs_setup & fs_loop & fs_pdf & files & has_combined
                      & Hdirs & Hloop & K & Hc & -> & ->).
    intros [= <- <- <- <-].
    apply make_session_dirs_ok in Hdirs as (Kd & Hsd & _ & Hpdf).
    exists fs_setup, fs_loop, fs_pdf, files, has_combined, size, y_position.
    split_and!; [eauto using keeps_paths_trans|done..].
  - destruct Hrun as (status & msg & ->). done.
Qed.

(** A batch that ends in success has written its manifest to [info.json]
    in the session directory: the manifest carries the session id of the
    answer, the processed names in their order, and exactly one entry per
    name with that name and its JPEG; the count of the answer is the number
    of submitted names; and a manifest that records a combined PDF was
    written with PDFs asked for and with the combined file in place. *)
Theorem successful_batch_manifest (env : Env) (req : Request) (fs fs' : FS)
    (session_id : string) (count : nat) (has_pdf : bool) :
  process env req fs = (fs', Success session_id count has_pdf) ->
  session_id = session_id_of env
  ∧ has_pdf = req_generatePDF req
  ∧ count = length (split_names (req_names req))
  ∧ exists info,
      fs' !! os_path_join (session_dir_of env) "info.json" = Some (CBytes (json_text env info))
      ∧ info_session_id info = session_id
      ∧ info_names info = request_names env req
      ∧ Forall2 (fun name file_info =>
                   file_info !! "name" = Some name ∧ is_Some (file_info !! "jpg"))
                (info_names info) (info_files info)
      ∧ info_has_pdf info = has_pdf
      ∧ (info_has_combined_pdf info = true ->
           has_pdf = true
           ∧ is_Some (fs' !! os_path_join (session_dir_of env) "combined_certificates.pdf")).
Proof.
  intros (fs_setup & fs_loop & fs_pdf & files & has_combined & size & y_position
          & _ & _ & _ & _ & _ & Hloop & K & Hc & -> & -> & -> & ->)%process_success_inv.
  pose proof (process_names_outcome env req (Z.max 10 size) y_position (template_path_of env)
                (session_dir_of env) (request_names env req) 0 [] fs_setup) as [_ Hall].
  rewrite Hloop in Hall. simpl in Hall. destruct Hall as (new & [= ->] & Hall).
  split_and!; [done..| |].
  - apply Forall2_length in Hall. rewrite <- Hall. unfold request_names.
    apply proper_names_length.
  - exists (manifest_of env req (request_names env req) new has_combined). simpl.
    split_and!; [apply lookup_insert_eq|done..| |done|].
    + eapply Forall2_impl; [done|]. intros name fi (Hn & (j & Hj & _) & _).
      split; [done|]. by eexists.
    + intros Ht. destruct (Hc Ht) as [Hflag Hex]. split; [done|].
      by apply keeps_paths_insert.
Qed.

Lemma successful_batch_manifest_witness :
  session_id_of no_pdf_env = session_id_of no_pdf_env
  ∧ true = req_generatePDF latin_request
  ∧ 2%nat = length (split_names (req_names latin_request))
  ∧ exists info,
      fs_latin_final !! os_path_join (session_dir_of no_pdf_env) "info.json"
      = Some (CBytes (json_text no_pdf_env info))
      ∧ info_session_id info = session_id_of no_pdf_env
      ∧ info_names info = request_names no_pdf_env latin_request
      ∧ Forall2 (fun name file_info =>
                   file_info !! "name" = Some name ∧ is_Some (file_info !! "jpg"))
                (info_names info) (info_files info)
      ∧ info_has_pdf info = true
      ∧ (info_has_combined_pdf info = true ->
           true = true
           ∧ is_Some (fs_latin_final
                        !! os_path_join (session_dir_of no_pdf_env) "combined_certificates.pdf")).
Proof.
  apply (successful_batch_manifest no_pdf_env latin_request ∅ fs_latin_final
           (session_id_of no_pdf_env) 2 true).
  apply pair_of_projections; [reflexivity|vm_compute; reflexivity].
Defined.

(** ** From the batch to the delivery routes *)

Lemma session_id_valid env :
  startswith (session_id_of env) "cert_" = true ∧ invalid_session (session_id_of env) = false.
Proof.
  assert (startswith (session_id_of env) "cert_" = true) as Hs.
  { unfold startswith, session_id_of. by rewrite of_string_app. }
  split; [done|]. unfold invalid_session. rewrite Hs.
  rewrite bool_decide_eq_false_2; [done|].
  unfold session_id_of. intros H%(f_equal of_string). by rewrite of_string_app in H.
Qed.

Lemma Forall2_right {A B} (P : A -> B -> Prop) (Q : B -> Prop) l k :
  Forall2 P l k -> (forall x y, P x y -> Q y) -> Forall Q k.
Proof. intros H HPQ. induction H; constructor; eauto. Qed.

Lemma path_exists_true (fs : FS) p : is_Some (fs !! p) -> path_exists fs p = true.
Proof. intros H. unfold path_exists. by apply bool_decide_eq_true_2. Qed.

(** Every JPEG that the manifest of a finished batch lists can be fetched:
    [serve_file], asked for the session of the answer, the type ['jpg'] and
    the file name of an entry, sends the file from the [jpg] folder of the
    session. *)
Theorem listed_jpegs_are_served (env : Env) (req : Request) (fs fs' : FS)
    (session_id : string) (count : nat) (has_pdf : bool) :
  process env req fs = (fs', Success session_id count has_pdf) ->
  exists info,
    fs' !! os_path_join (session_dir_of env) "info.json" = Some (CBytes (json_text env info))
    ∧ length (info_files info) = count
    ∧ Forall (fun file_info =>
                exists jpg_name,
                  file_info !! "jpg" = Some jpg_name
                  ∧ serve_file fs' session_id "jpg" jpg_name
                    = SendFile (os_path_join_all "output" [session_id; "jpg"; jpg_name]) None)
             (info_files info).
Proof.
  intros (fs_setup & fs_loop & fs_pdf & files & has_combined & size & y_position
          & _ & _ & _ & _ & _ & Hloop & K & _ & -> & -> & -> & ->)%process_success_inv.
  pose proof (process_names_outcome env req (Z.max 10 size) y_position (template_path_of env)
                (session_dir_of env) (request_names env req) 0 [] fs_setup) as [_ Hall].
  rewrite Hloop in Hall. simpl in Hall. destruct Hall as (new & [= ->] & Hall).
  exists (manifest_of env req (request_names env req) new has_combined). simpl.
  split_and!; [apply lookup_insert_eq|done|].
  eapply Forall2_right; [done|]. intros name fi (_ & (j & Hj & Hex) & _).
  exists j. split; [done|]. unfold serve_file.
  destruct (session_id_valid env) as [-> _]. simpl.
  change (os_path_join_all "output" [session_id_of env; "jpg"; j])
    with (os_path_join (os_path_join (session_dir_of env) "jpg") j).
  rewrite path_exists_true; [done|]. by apply keeps_paths_insert, K.
Qed.

Lemma listed_jpegs_are_served_witness :
  exists info,
    fs_latin_final !! os_path_join (session_dir_of no_pdf_env) "info.json"
    = Some (CBytes (json_text no_pdf_env info))
    ∧ length (info_files info) = 2%nat
    ∧ Forall (fun file_info =>
                exists jpg_name,
                  file_info !! "jpg" = Some jpg_name
                  ∧ serve_file fs_latin_final (session_id_of no_pdf_env) "jpg" jpg_name
                    = SendFile (os_path_join_all "output"
                                  [session_id_of no_pdf_env; "jpg"; jpg_name]) None)
             (info_files info).
Proof.
  apply (listed_jpegs_are_served no_pdf_env latin_request ∅ fs_latin_final
           (session_id_of no_pdf_env) 2 true).
  apply pair_of_projections; [reflexivity|vm_compute; reflexivity].
Defined.

(** The results page of a finished batch is reachable: [results], asked
    for the session of the answer, gets past its three checks and reads the
    manifest that [process] wrote; it shows what [json.load] makes of that
    text, with the [.pdf] files of the [pdf] folder, and fails only if
    [json.load] does. *)
Theorem results_reads_the_manifest (env : Env) (req : Request) (fs fs' : FS)
    (session_id : string) (count : nat) (has_pdf : bool)
    (json_load : string -> Result Manifest) :
  process env req fs = (fs', Success session_id count has_pdf) ->
  exists info,
    fs' !! os_path_join (session_dir_of env) "info.json" = Some (CBytes (json_text env info))
    ∧ info_names info = request_names env req
    ∧ results env json_load fs' session_id
      = match json_load (json_text env info) with
        | Ok loaded =>
            Ok (ResultsPage loaded session_id
                  (filter (fun f => endswith f ".pdf")
                          (env_listdir env (os_path_join (session_dir_of env) "pdf"))))
        | Raise msg => Raise msg
        end.
Proof.
  intros (fs_setup & fs_loop & fs_pdf & files & has_combined & size & y_position
          & _ & Hsd & Hpdf & _ & _ & Hloop & K & _ & -> & -> & -> & ->)%process_success_inv.
  pose proof (process_names_outcome env req (Z.max 10 size) y_position (template_path_of env)
                (session_dir_of env) (request_names env req) 0 [] fs_setup) as [Kloop _].
  rewrite Hloop in Kloop. simpl in Kloop.
  exists (manifest_of env req (request_names env req) files has_combined).
  split_and!; [apply lookup_insert_eq|done|].
  unfold results. destruct (session_id_valid env) as [_ ->].
  fold (session_dir_of env).
  rewrite (path_exists_true _ (session_dir_of env)) by (by apply keeps_paths_insert, K, Kloop).
  rewrite (path_exists_true _ (os_path_join (session_dir_of env) "info.json"))
    by (rewrite lookup_insert_eq; by eexists).
  rewrite (path_exists_true _ (os_path_join (session_dir_of env) "pdf"))
    by (by apply keeps_paths_insert, K, Kloop).
  simpl. by rewrite lookup_insert_eq.
Qed.

Lemma results_reads_the_manifest_witness :
  exists info,
    fs_latin_final !! os_path_join (session_dir_of no_pdf_env) "info.json"
    = Some (CBytes (json_text no_pdf_env info))
    ∧ info_names info = request_names no_pdf_env latin_request
    ∧ results no_pdf_env (fun _ => Raise "Expecting value") fs_latin_final
        (session_id_of no_pdf_env)
      = match (fun _ : string => @Raise Manifest "Expecting value") (json_text no_pdf_env info) with
        | Ok loaded =>
            Ok (ResultsPage loaded (session_id_of no_pdf_env)
                  (filter (fun f => endswith f ".pdf")
                          (env_listdir no_pdf_env (os_path_join (session_dir_of no_pdf_env) "pdf"))))
        | Raise msg => Raise msg
        end.
Proof.
  apply (results_reads_the_manifest no_pdf_env latin_request ∅ fs_latin_final
           (session_id_of no_pdf_env) 2 true).
  apply pair_of_projections; [reflexivity|vm_compute; reflexivity].
Defined.

(** The combined PDF a manifest records can be downloaded:
    [download_combined], asked for the session of the answer, sends
    [combined_certificates.pdf] of the session directory as an attachment
    named after the session. *)
Theorem recorded_combined_pdf_is_sent (env : Env) (req : Request) (fs fs' : FS)
    (session_id : string) (count : nat) (has_pdf : bool) :
  process env req fs = (fs', Success session_id count has_pdf) ->
  exists info,
    fs' !! os_path_join (session_dir_of env) "info.json" = Some (CBytes (json_text env info))
    ∧ (info_has_combined_pdf info = true ->
         download_combined fs' session_id
         = SendFile (os_path_join (session_dir_of env) "combined_certificates.pdf")
                    (Some ("Combined_Certificates_" +:+ session_id +:+ ".pdf"))).
Proof.
  intros (fs_setup & fs_loop & fs_pdf & files & has_combined & size & y_position
          & _ & Hsd & _ & _ & _ & Hloop & K & Hc & -> & -> & -> & ->)%process_success_inv.
  pose proof (process_names_outcome env req (Z.max 10 size) y_position (template_path_of env)
                (session_dir_of env) (request_names env req) 0 [] fs_setup) as [Kloop _].
  rewrite Hloop in Kloop. simpl in Kloop.
  exists (manifest_of env req (request_names env req) files has_combined).
  split; [apply lookup_insert_eq|]. simpl. intros Ht. destruct (Hc Ht) as [_ Hex].
  unfold download_combined. destruct (session_id_valid env) as [_ ->].
  fold (session_dir_of env).
  rewrite (path_exists_true _ (session_dir_of env)) by (by apply keeps_paths_insert, K, Kloop).
  by rewrite path_exists_true by (by apply keeps_paths_insert).
Qed.

Lemma recorded_combined_pdf_is_sent_witness :
  exists info,
    fs_latin_pdf_final !! os_path_join (session_dir_of pdf_env) "info.json"
    = Some (CBytes (json_text pdf_env info))
    ∧ (info_has_combined_pdf info = true ->
         download_combined fs_latin_pdf_final (session_id_of pdf_env)
         = SendFile (os_path_join (session_dir_of pdf_env) "combined_certificates.pdf")
                    (Some ("Combined_Certificates_" +:+ session_id_of pdf_env +:+ ".pdf"))).
Proof.
  apply (recorded_combined_pdf_is_sent pdf_env latin_request ∅ fs_latin_pdf_final
           (session_id_of pdf_env) 2 true).
  apply pair_of_projections; [reflexivity|vm_compute; reflexivity].
Defined.

Example ex_combined_pdf_of_two :
  download_combined fs_latin_pdf_final (session_id_of pdf_env)
  = SendFile "output/cert_0123456789abcdef.123456/combined_certificates.pdf"
             (Some "Combined_Certificates_cert_0123456789abcdef.123456.pdf")
  ∧ download_combined fs_latin_final (session_id_of no_pdf_env)
    = Text 404 "Combined PDF not found"
  ∧ download_combined fs_latin_final "../etc" = Text 400 "Invalid session ID".
Proof. split_and!; vm_compute; reflexivity. Qed.

(** ** Requests that are turned away *)

(** An upload that carries a [.png] name but is not an image is answered
    with 400 and removed again: nothing is left at the template path.  With
    a good template, a font size or a vertical position that [int] cannot
    read is answered with 500 and the text of the [ValueError], before the
    names are looked at; when both numbers are read and there is no name,
    the answer is 400.  In these cases the template stays in [uploads]. *)
Theorem rejected_uploads (env : Env) (req : Request) (fs : FS) (filename : string)
    (uploaded : Content) :
  req_template req = Some (filename, uploaded) ->
  filename ≠ "" ->
  endswith (str_lower (env_ucd env) filename) ".png" = true ->
  env_write_error env (template_path_of env) = None ->
  match uploaded with
  | CImage _ _ =>
      match req_fontSize req, req_yPosition req with
      | Raise msg, _ | Ok _, Raise msg =>
          process env req fs = (<[template_path_of env := uploaded]> fs, Failure 500 msg)
      | Ok _, Ok _ =>
          nonempty (strip (decode (req_names req))) = false ->
          process env req fs
          = (<[template_path_of env := uploaded]> fs,
             Failure 400 "Please provide at least one name")
      end
  | _ =>
      process env req fs = (delete (template_path_of env) fs, Failure 400 "Invalid image file")
  end.
Proof.
  intros Htemplate Hname Hpng Hwrite. unfold process. rewrite Htemplate.
  rewrite bool_decide_eq_false_2 by done. rewrite Hpng. simpl negb. cbv iota.
  unfold fs_write. rewrite Hwrite. unfold image_open. rewrite lookup_insert_eq.
  destruct uploaded; try by rewrite delete_insert_eq.
  destruct (req_fontSize req) as [size|msg]; [|done].
  destruct (req_yPosition req) as [y_position|msg]; [|done].
  by intros ->.
Qed.

(** An upload that is not an image; a request whose font size is not a
    number; and a request without a name. *)
Lemma rejected_uploads_witness :
  process pdf_env junk_request ∅
  = (delete (template_path_of pdf_env) ∅, Failure 400 "Invalid image file")
  ∧ process pdf_env bad_size_request ∅
    = (<[template_path_of pdf_env := CImage PNG template_picture]> ∅,
       Failure 500 "invalid literal for int() with base 10: 'big'")
  ∧ process pdf_env no_names_request ∅
    = (<[template_path_of pdf_env := CImage PNG template_picture]> ∅,
       Failure 400 "Please provide at least one name").
Proof.
  split_and!.
  - apply (rejected_uploads pdf_env junk_request ∅ "certificate.png" (CBytes "not an image"));
      [reflexivity|discriminate|reflexivity|reflexivity].
  - apply (rejected_uploads pdf_env bad_size_request ∅ "certificate.png"
             (CImage PNG template_picture));
      [reflexivity|discriminate|reflexivity|reflexivity].
  - apply (rejected_uploads pdf_env no_names_request ∅ "certificate.png"
             (CImage PNG template_picture));
      [reflexivity|discriminate|reflexivity|reflexivity|reflexivity].
Defined.

(** ** The files of one certificate, and of two *)

Lemma is_prefix_app p t : is_prefix p (p ++ t) = true.
Proof. induction p as [|a p IH]; simpl; [done|]. by rewrite bool_decide_eq_true_2, IH. Qed.

Lemma contains_of_prefix sub l : is_prefix sub l = true -> contains_chars sub l = true.
Proof. intros H. destruct l; simpl in *; by rewrite H. Qed.

Lemma contains_chars_app sub x : contains_chars sub (x ++ sub) = true.
Proof.
  induction x as [|c x IH].
  - apply contains_of_prefix. simpl. pose proof (is_prefix_app sub []) as H.
    by rewrite app_nil_r in H.
  - change (contains_chars sub ((c :: x) ++ sub))
      with (is_prefix sub ((c :: x) ++ sub) || contains_chars sub (x ++ sub)).
    rewrite IH. apply orb_true_r.
Qed.

(** Replacing [.png] by [.jpg] changes every text that has a [.png]. *)
Lemma replace_png_changes l :
  contains_chars (of_string ".png") l = true ->
  replace_go (of_string ".png") (of_string ".jpg") O l ≠ l.
Proof.
  induction l as [|c l IH]; [done|]. intros Hc.
  change (replace_go (of_string ".png") (of_string ".jpg") 0 (c :: l))
    with (if is_prefix (of_string ".png") (c :: l)
          then of_string ".jpg" ++ replace_go (of_string ".png") (of_string ".jpg") 3 l
          else c :: replace_go (of_string ".png") (of_string ".jpg") 0 l).
  destruct (is_prefix (of_string ".png") (c :: l)) eqn:Hp.
  - destruct l as [|c2 l]; [done|]. simpl in Hp.
    apply andb_true_iff in Hp as [_ Hp]. apply andb_true_iff in Hp as [Hp _].
    apply bool_decide_eq_true_1 in Hp. subst c2. simpl. by intros [= _ ?].
  - change (contains_chars (of_string ".png") (c :: l))
      with (is_prefix (of_string ".png") (c :: l) || contains_chars (of_string ".png") l) in Hc.
    rewrite Hp in Hc. intros [= H]. by apply IH.
Qed.

Lemma output_path_has_png u session_dir index name :
  contains_chars (of_string ".png")
    (of_string (os_path_join session_dir (output_filename u index name))) = true.
Proof.
  destruct (output_filename_chars u index name) as [rest Hc].
  rewrite (os_path_join_chars _ _ (starts_with_c_relative _ _ Hc)).
  unfold output_filename. rewrite !of_string_app, !app_assoc.
  apply contains_chars_app.
Qed.

(** For the output path [process] builds, the JPEG path differs from the
    PNG path, so a rendering that succeeds leaves two files, the JPEG in
    JPEG format and the PNG in PNG format, with the same picture: the PNG
    does not overwrite the JPEG. *)
Theorem rendered_pair_is_two_files (env : Env) (fs fs' : FS)
    (template_path name font_name : string) (font_size y_position : Z)
    (text_color session_dir : string) (index : nat) (result : string * string) :
  generate_certificate_image env fs template_path name font_name font_size y_position
    text_color (os_path_join session_dir (output_filename (env_ucd env) index name))
  = (fs', Ok result) ->
  result.1 ≠ result.2
  ∧ exists pic,
      fs' !! result.1 = Some (CImage JPEG pic) ∧ fs' !! result.2 = Some (CImage PNG pic).
Proof.
  intros (template & rgb & ops & layout & _ & _ & _ & -> & ->)%generate_certificate_image_ok.
  simpl. set (output_path := os_path_join session_dir _).
  assert (str_replace output_path ".png" ".jpg" ≠ output_path) as Hne.
  { intros Heq%(f_equal of_string). unfold str_replace in Heq. rewrite of_to_string in Heq.
    by apply replace_png_changes in Heq; [|apply output_path_has_png]. }
  split; [done|]. eexists. split; [|apply lookup_insert_eq].
  rewrite lookup_insert_ne by done. apply lookup_insert_eq.
Qed.

Lemma rendered_pair_is_two_files_witness :
  (latin_jpg, latin_png).1 ≠ (latin_jpg, latin_png).2
  ∧ exists pic,
      fs_latin_rendered !! (latin_jpg, latin_png).1 = Some (CImage JPEG pic)
      ∧ fs_latin_rendered !! (latin_jpg, latin_png).2 = Some (CImage PNG pic).
Proof.
  apply (rendered_pair_is_two_files no_pdf_env fs_latin_setup fs_latin_rendered
           (template_path_of no_pdf_env) "Anju Shah" "arial" 48 300 "#000000"
           (session_dir_of no_pdf_env) 0 (latin_jpg, latin_png)).
  apply pair_of_projections; [reflexivity|vm_compute; reflexivity].
Defined.

Lemma pretty_N_go_digits x s :
  Forall (fun c => is_digit_byte c = true) (of_string s) ->
  Forall (fun c => is_digit_byte c = true) (of_string (pretty_N_go x s)).
Proof.
  revert s. induction (N.lt_wf_0 x) as [x _ IH]; intros s Hs.
  destruct (decide (x = 0)%N) as [->|Hx]; [by rewrite pretty_N_go_0|].
  rewrite pretty_N_go_step by lia. apply IH.
  - apply N.div_lt; lia.
  - change (of_string (String ?c s)) with (c :: of_string s). constructor; [|done].
    unfold pretty_N_char. by repeat case_match.
Qed.

Lemma pretty_index_digits (index : nat) :
  Forall (fun c => is_digit_byte c = true) (of_string (pretty (Z.of_nat index + 1))).
Proof.
  destruct (Z.of_nat index + 1) as [|q|q] eqn:Hq; [lia| |lia].
  unfold pretty, pretty_Z, pretty, pretty_positive, pretty, pretty_N.
  rewrite decide_False by done. by apply pretty_N_go_digits.
Qed.

(** Two runs of digits, each followed by an underscore, that start equal
    texts are equal. *)
Lemma digits_prefix_unique d1 d2 r1 r2 :
  Forall (fun c => is_digit_byte c = true) d1 -> Forall (fun c => is_digit_byte c = true) d2 ->
  d1 ++ "_"%char :: r1 = d2 ++ "_"%char :: r2 -> d1 = d2.
Proof.
  intros H1. revert d2. induction H1 as [|c d1 Hc _ IH]; intros d2 H2 Heq.
  - destruct H2 as [|c2 d2 Hc2 _]; [done|]. simpl in Heq. injection Heq as <- _. done.
  - destruct H2 as [|c2 d2 Hc2 H2]; simpl in Heq.
    + injection Heq as -> _. done.
    + injection Heq as <- Heq. f_equal. by eapply IH.
Qed.

Lemma output_filename_index u index index' name name' :
  output_filename u index name = output_filename u index' name' -> index = index'.
Proof.
  unfold output_filename. intros Heq%(f_equal of_string).
  rewrite !of_string_app in Heq. apply app_inv_head in Heq.
  apply digits_prefix_unique in Heq; [|apply pretty_index_digits..].
  apply of_string_inj, (inj pretty) in Heq. lia.
Qed.

(** Certificates at different positions of the list never share a PNG
    path, also when their names are equal: the position is part of the file
    name. *)
Theorem positions_have_their_own_png (u : Ucd) (session_dir : string)
    (index index' : nat) (name name' : string) :
  index ≠ index' ->
  os_path_join session_dir (output_filename u index name)
  ≠ os_path_join session_dir (output_filename u index' name').
Proof.
  intros Hne Heq. apply Hne.
  destruct (output_filename_chars u index name) as [r1 H1].
  destruct (output_filename_chars u index' name') as [r2 H2].
  apply (f_equal of_string) in Heq.
  rewrite (os_path_join_chars _ _ (starts_with_c_relative _ _ H1)) in Heq.
  rewrite (os_path_join_chars _ _ (starts_with_c_relative _ _ H2)) in Heq.
  do 2 apply app_inv_head in Heq.
  by eapply output_filename_index, of_string_inj.
Qed.

Lemma positions_have_their_own_png_witness :
  os_path_join "output/s" (output_filename ucd_excerpt 0 "Anju Shah")
  ≠ os_path_join "output/s" (output_filename ucd_excerpt 1 "Anju Shah").
Proof. apply positions_have_their_own_png. discriminate. Defined.

(** ** The resolver on examples *)

Lemma get_font_path_falls_back_to_arial_witness :
  get_font_path zero_font_env fs_zero_font "gujarati" 48
  = get_font_path zero_font_env fs_zero_font "arial" 48
  ∧ get_font_path zero_font_env fs_zero_font "comic" 48
    = get_font_path zero_font_env fs_zero_font "arial" 48.
Proof.
  destruct (get_font_path_falls_back_to_arial zero_font_env fs_zero_font 48) as [Hg Hu].
  split.
  - apply Hg. reflexivity.
  - apply Hu. unfold known_styles. rewrite !not_elem_of_cons. split_and!; try discriminate.
    apply not_elem_of_nil.
Defined.

Example ex_resolver :
  find_gujarati_font shruti_env fs_shruti 48 = Some (plain_font good_face)
  ∧ find_gujarati_font zero_font_env fs_zero_font 48 = None
  ∧ font_path_attr (get_font_path shruti_env fs_shruti "gujarati" 48) = Some shruti_path
  ∧ font_path_attr (get_font_path shruti_env fs_shruti "times" 48) = None.
Proof. split_and!; reflexivity. Qed.
